(** * Blog data model (modules/blog/models.py)

    A shallow embedding of the Django models of the blog application:
    Category, Article (with its ArticleManager), Comment, Rating and
    ViewCount, together with the part of the object-relational mapper
    their declarations rely on: default orderings, unique and foreign-key
    constraints at save time, and the on_delete rules at delete time.

    Tables are lists of rows in insertion order.  An instance that has
    not been saved has no primary key; every stored row has one.
    Datetimes are integers (a clock reading), text fields are strings. *)

From Stdlib Require Import ZArith List String Bool Lia Permutation Sorted.
From Stdlib Require Import DecimalString.
Import ListNotations.
Local Open Scope string_scope.
Local Open Scope list_scope.
Local Open Scope Z_scope.

(** ** The mapper: orderings *)

Module Orm.

(** A term of an [ordering] list: ['name'] is ascending, ['-name']
    descending. *)
Inductive Direction := Asc | Desc.

(** What a write reports when the database refuses it. *)
Inductive DbError :=
| UniqueViolation (constraint : list string)
| ForeignKeyViolation (field : string)
| ProtectedError (referenced_through : string).

Inductive Outcome :=
| Done
| Raised (e : DbError).

Definition eqb_option_Z (x y : option Z) : bool :=
  match x, y with
  | Some a, Some b => a =? b
  | None, None => true
  | _, _ => false
  end.

(** [x] stands somewhere before [y] in the sequence [l]. *)
Definition precedes {A : Type} (x y : A) (l : list A) : Prop :=
  exists l1 l2 l3, l = l1 ++ x :: l2 ++ y :: l3.

Section OrderBy.
Context {A F : Type}.
Variable field_compare : F -> A -> A -> comparison.

Definition term_compare (t : Direction * F) (a b : A) : comparison :=
  match fst t with
  | Asc => field_compare (snd t) a b
  | Desc => CompOpp (field_compare (snd t) a b)
  end.

(** ORDER BY with several terms: the first term that tells the two rows
    apart decides. *)
Fixpoint compare_by (ordering : list (Direction * F)) (a b : A) : comparison :=
  match ordering with
  | [] => Eq
  | t :: rest =>
      match term_compare t a b with
      | Eq => compare_by rest a b
      | c => c
      end
  end.

Definition not_after (ordering : list (Direction * F)) (a b : A) : bool :=
  match compare_by ordering a b with
  | Gt => false
  | _ => true
  end.

Fixpoint place (ordering : list (Direction * F)) (a : A) (sorted : list A) : list A :=
  match sorted with
  | [] => [a]
  | b :: rest =>
      if not_after ordering a b then a :: b :: rest
      else b :: place ordering a rest
  end.

(** Rows that compare equal keep the order of the table. *)
Definition order_by (ordering : list (Direction * F)) (rows : list A) : list A :=
  fold_right (place ordering) [] rows.

End OrderBy.

End Orm.
Import Orm.


(** ** The models *)

(** [User = get_user_model()] belongs to the authentication application;
    a user is referred to by primary key only. *)

Module Category.
(** [class Category(MPTTModel)], table app_categories. *)
Record t := {
  id : option Z;
  title : string;
  slug : string;
  description : string;
  parent : option Z   (* TreeForeignKey('self', on_delete=CASCADE, null=True) *)
}.

Inductive Field := F_title.

Definition field_compare (f : Field) (a b : t) : comparison :=
  match f with
  | F_title => String.compare (title a) (title b)
  end.
End Category.

Module Article.
(** [class Article(models.Model)], table app_articles.  The two rich-text
    fields are the later, CKEditor5Field declarations of the class body.
    [tags] is a many-to-many manager and not a column of the row. *)
Record t := {
  id : option Z;
  title : string;
  slug : string;                (* SlugField(blank=True, unique=True) *)
  short_description : string;
  full_description : string;
  thumbnail : string;
  status : string;              (* CharField(choices=STATUS_OPTIONS, default='published') *)
  time_create : Z;              (* DateTimeField(auto_now_add=True) *)
  time_update : Z;              (* DateTimeField(auto_now=True) *)
  author : Z;                   (* ForeignKey(User, on_delete=SET_DEFAULT, default=1) *)
  updater : option Z;           (* ForeignKey(User, on_delete=SET_NULL, null=True) *)
  fixed : bool;                 (* BooleanField(default=False) *)
  category : Z                  (* TreeForeignKey('Category', on_delete=PROTECT) *)
}.

Definition STATUS_OPTIONS : list (string * string) :=
  [("published", "Опубликовано"); ("draft", "Черновик")].

(** The columns that orderings of this model name. *)
Inductive Field := F_time_create | F_fixed.

Definition field_compare (f : Field) (a b : t) : comparison :=
  match f with
  | F_time_create => Z.compare (time_create a) (time_create b)
  | F_fixed => Bool.compare (fixed a) (fixed b)
  end.

(** [class Meta: ordering = ['-time_create', '-fixed']] *)
Definition Meta_ordering : list (Orm.Direction * Field) :=
  [(Orm.Desc, F_time_create); (Orm.Desc, F_fixed)].

Definition with_slug (s : string) (a : t) : t :=
  {| id := id a; title := title a; slug := s;
     short_description := short_description a;
     full_description := full_description a; thumbnail := thumbnail a;
     status := status a; time_create := time_create a;
     time_update := time_update a; author := author a;
     updater := updater a; fixed := fixed a; category := category a |}.

Definition with_id (k : Z) (a : t) : t :=
  {| id := Some k; title := title a; slug := slug a;
     short_description := short_description a;
     full_description := full_description a; thumbnail := thumbnail a;
     status := status a; time_create := time_create a;
     time_update := time_update a; author := author a;
     updater := updater a; fixed := fixed a; category := category a |}.

Definition with_times (created updated : Z) (a : t) : t :=
  {| id := id a; title := title a; slug := slug a;
     short_description := short_description a;
     full_description := full_description a; thumbnail := thumbnail a;
     status := status a; time_create := created;
     time_update := updated; author := author a;
     updater := updater a; fixed := fixed a; category := category a |}.
End Article.

Module Comment.
(** [class Comment(MPTTModel)], table app_comments. *)
Record t := {
  id : option Z;
  article : Z;                  (* ForeignKey(Article, on_delete=CASCADE) *)
  author : Z;                   (* ForeignKey(User, on_delete=CASCADE) *)
  content : string;
  time_create : Z;              (* auto_now_add *)
  time_update : Z;              (* auto_now *)
  status : string;              (* default='published' *)
  parent : option Z             (* TreeForeignKey('self', null=True, on_delete=CASCADE) *)
}.

Inductive Field := F_time_create.

Definition field_compare (f : Field) (a b : t) : comparison :=
  match f with
  | F_time_create => Z.compare (time_create a) (time_create b)
  end.

(** [class Meta: ordering = ['-time_create']] *)
Definition Meta_ordering : list (Orm.Direction * Field) :=
  [(Orm.Desc, F_time_create)].

Definition with_id (k : Z) (c : t) : t :=
  {| id := Some k; article := article c; author := author c;
     content := content c; time_create := time_create c;
     time_update := time_update c; status := status c; parent := parent c |}.

Definition with_times (created updated : Z) (c : t) : t :=
  {| id := id c; article := article c; author := author c;
     content := content c; time_create := created;
     time_update := updated; status := status c; parent := parent c |}.
End Comment.

Module Rating.
(** [class Rating(models.Model)]. *)
Record t := {
  id : option Z;
  article : Z;                  (* ForeignKey(Article, on_delete=CASCADE, related_name='ratings') *)
  user : option Z;              (* ForeignKey(User, on_delete=CASCADE, null=True) *)
  value : Z;                    (* IntegerField(choices=[(1, ...), (-1, ...)]) *)
  time_create : Z;              (* auto_now_add *)
  ip_address : string
}.

Inductive Field := F_time_create.

Definition field_compare (f : Field) (a b : t) : comparison :=
  match f with
  | F_time_create => Z.compare (time_create a) (time_create b)
  end.

(** [class Meta: ordering = ('-time_create',)] *)
Definition Meta_ordering : list (Orm.Direction * Field) :=
  [(Orm.Desc, F_time_create)].

(** [class Meta: unique_together = ('article', 'ip_address')] *)
Definition unique_together : list string := ["article"; "ip_address"].

Definition with_id (k : Z) (r : t) : t :=
  {| id := Some k; article := article r; user := user r; value := value r;
     time_create := time_create r; ip_address := ip_address r |}.

Definition with_time_create (created : Z) (r : t) : t :=
  {| id := id r; article := article r; user := user r; value := value r;
     time_create := created; ip_address := ip_address r |}.
End Rating.

Module ViewCount.
(** [class ViewCount(models.Model)]. *)
Record t := {
  id : option Z;
  article : Z;                  (* ForeignKey('Article', on_delete=CASCADE, related_name='views') *)
  ip_address : string;
  viewed_on : Z                 (* auto_now_add *)
}.
End ViewCount.

(** The stored state: the user keys of the authentication application
    and the five tables of this one. *)
Record Database := {
  users : list Z;
  categories : list Category.t;
  articles : list Article.t;
  comments : list Comment.t;
  ratings : list Rating.t;
  views : list ViewCount.t
}.

Definition empty_db : Database :=
  {| users := []; categories := []; articles := []; comments := [];
     ratings := []; views := [] |}.

Definition set_categories (l : list Category.t) (db : Database) : Database :=
  {| users := users db; categories := l; articles := articles db;
     comments := comments db; ratings := ratings db; views := views db |}.

Definition set_articles (l : list Article.t) (db : Database) : Database :=
  {| users := users db; categories := categories db; articles := l;
     comments := comments db; ratings := ratings db; views := views db |}.

Definition set_comments (l : list Comment.t) (db : Database) : Database :=
  {| users := users db; categories := categories db; articles := articles db;
     comments := l; ratings := ratings db; views := views db |}.

Definition set_ratings (l : list Rating.t) (db : Database) : Database :=
  {| users := users db; categories := categories db; articles := articles db;
     comments := comments db; ratings := l; views := views db |}.

(** ** Query sets of Article and the ArticleManager *)

(** A query set is a description of a query; nothing is read before it
    is evaluated by [fetch].  [select_related] and [prefetch_related]
    name what is loaded along with each row; the rows they join exist by
    the foreign-key constraints, so the rows of the answer are the same
    with or without them. *)
Record QuerySet := {
  qs_select_related : list string;
  qs_prefetch_related : list string;
  qs_where : list (Article.t -> bool);
  qs_ordering : list (Orm.Direction * Article.Field)
}.

(** [models.Manager.get_queryset]: every row, in the default ordering. *)
Definition get_queryset : QuerySet :=
  {| qs_select_related := []; qs_prefetch_related := [];
     qs_where := []; qs_ordering := Article.Meta_ordering |}.

Definition select_related (names : list string) (qs : QuerySet) : QuerySet :=
  {| qs_select_related := qs_select_related qs ++ names;
     qs_prefetch_related := qs_prefetch_related qs;
     qs_where := qs_where qs; qs_ordering := qs_ordering qs |}.

Definition prefetch_related (names : list string) (qs : QuerySet) : QuerySet :=
  {| qs_select_related := qs_select_related qs;
     qs_prefetch_related := qs_prefetch_related qs ++ names;
     qs_where := qs_where qs; qs_ordering := qs_ordering qs |}.

(** [.filter(status=v)] *)
Definition filter_status (v : string) (qs : QuerySet) : QuerySet :=
  {| qs_select_related := qs_select_related qs;
     qs_prefetch_related := qs_prefetch_related qs;
     qs_where := qs_where qs ++ [fun a => String.eqb (Article.status a) v];
     qs_ordering := qs_ordering qs |}.

(** Evaluation: WHERE, then ORDER BY. *)
Definition fetch (db : Database) (qs : QuerySet) : list Article.t :=
  Orm.order_by Article.field_compare (qs_ordering qs)
    (filter (fun a => forallb (fun p => p a) (qs_where qs)) (articles db)).

(** [ArticleManager.all] *)
Definition ArticleManager_all : QuerySet :=
  filter_status "published"
    (prefetch_related ["ratings"]
       (select_related ["author"; "category"] get_queryset)).

(** [ArticleManager.detail] *)
Definition ArticleManager_detail : QuerySet :=
  filter_status "published"
    (prefetch_related
       ["comments"; "comments__author"; "comments__author__profile";
        "tags"; "ratings"]
       (select_related ["author"; "category"] get_queryset)).

Definition is_published (a : Article.t) : bool :=
  String.eqb (Article.status a) "published".

(** Two stored articles: an older pinned one and a newer one that is not
    pinned. *)
Definition pinned_older : Article.t :=
  {| Article.id := Some 1; Article.title := "Rules"; Article.slug := "rules";
     Article.short_description := ""; Article.full_description := "";
     Article.thumbnail := ""; Article.status := "published";
     Article.time_create := 100; Article.time_update := 100;
     Article.author := 1; Article.updater := None;
     Article.fixed := true; Article.category := 1 |}.

Definition plain_newer : Article.t :=
  {| Article.id := Some 2; Article.title := "News"; Article.slug := "news";
     Article.short_description := ""; Article.full_description := "";
     Article.thumbnail := ""; Article.status := "published";
     Article.time_create := 200; Article.time_update := 200;
     Article.author := 1; Article.updater := None;
     Article.fixed := false; Article.category := 1 |}.

Definition two_articles : Database :=
  set_articles [pinned_older; plain_newer] empty_db.

(** ** Saving a row ([Model.save]) *)

(** What the mapper uses of a model: the primary key of an instance, the
    key a fresh row receives, and [pre_save], which refreshes the
    automatic datetime fields ([add] tells an INSERT from an UPDATE). *)
Class Model (R : Type) := {
  pk : R -> option Z;
  with_pk : Z -> R -> R;
  pre_save : bool -> Z -> R -> R
}.

#[export] Instance Category_Model : Model Category.t := {
  pk := Category.id;
  with_pk := fun k c =>
    {| Category.id := Some k; Category.title := Category.title c;
       Category.slug := Category.slug c;
       Category.description := Category.description c;
       Category.parent := Category.parent c |};
  pre_save := fun _ _ c => c
}.

(** [time_create] has auto_now_add, [time_update] has auto_now. *)
#[export] Instance Article_Model : Model Article.t := {
  pk := Article.id;
  with_pk := Article.with_id;
  pre_save := fun add now a =>
    Article.with_times (if add then now else Article.time_create a) now a
}.

#[export] Instance Comment_Model : Model Comment.t := {
  pk := Comment.id;
  with_pk := Comment.with_id;
  pre_save := fun add now c =>
    Comment.with_times (if add then now else Comment.time_create c) now c
}.

#[export] Instance Rating_Model : Model Rating.t := {
  pk := Rating.id;
  with_pk := Rating.with_id;
  pre_save := fun add now r =>
    Rating.with_time_create (if add then now else Rating.time_create r) r
}.

Definition is_in (k : Z) (s : list Z) : bool := existsb (Z.eqb k) s.

Section Table.
Context {R : Type} `{Model R}.

Definition has_pk (k : Z) (r : R) : bool := eqb_option_Z (pk r) (Some k).

Definition pks (table : list R) : list Z :=
  flat_map (fun r => match pk r with Some k => [k] | None => [] end) table.

Definition exists_pk (k : Z) (table : list R) : bool := existsb (has_pk k) table.

(** The key an AutoField hands out: one past the largest key in use. *)
Definition next_pk (table : list R) : Z := 1 + fold_right Z.max 0 (pks table).

(** The row an UPDATE is about to overwrite does not count against a
    unique constraint. *)
Definition is_own (own : option Z) (r : R) : bool :=
  match own with
  | Some k => has_pk k r
  | None => false
  end.

(** [save()] without arguments.  An instance with a key whose row exists
    is written over that row (UPDATE); otherwise a row is added (INSERT),
    with a fresh key when the instance has none.  [violation own row]
    is the constraint of the table that [row] breaks, if any; a refused
    write leaves the table as it was.  The instance is returned as the
    call leaves it. *)
Definition save_base (violation : option Z -> R -> option DbError)
    (table : list R) (self : R) (now : Z) : Outcome * R * list R :=
  match pk self with
  | Some k =>
      if exists_pk k table then
        let row := pre_save false now self in
        match violation (Some k) row with
        | Some e => (Raised e, row, table)
        | None => (Done, row, map (fun r => if has_pk k r then row else r) table)
        end
      else
        let row := pre_save true now (pre_save false now self) in
        match violation None row with
        | Some e => (Raised e, row, table)
        | None => (Done, row, table ++ [row])
        end
  | None =>
      let row := pre_save true now self in
      match violation None row with
      | Some e => (Raised e, row, table)
      | None =>
          let stored := with_pk (next_pk table) row in
          (Done, stored, table ++ [stored])
      end
  end.
End Table.

(** The two laws of a model that [save_base] relies on. *)
Class ModelLaws (R : Type) `{Model R} := {
  pk_with_pk : forall k r, pk (with_pk k r) = Some k;
  pk_pre_save : forall add now r, pk (pre_save add now r) = pk r
}.

Section SaveOutcomes.
Context {R : Type} `{Model R}.
Variable violation : option Z -> R -> option DbError.

(** The three ways [save_base] succeeds. *)
Definition updated (table : list R) (self : R) (now : Z) (self' : R)
    (table' : list R) : Prop :=
  exists k, pk self = Some k /\ exists_pk k table = true /\
    self' = pre_save false now self /\ violation (Some k) self' = None /\
    table' = map (fun r => if has_pk k r then self' else r) table.

Definition inserted_with_key (table : list R) (self : R) (now : Z) (self' : R)
    (table' : list R) : Prop :=
  exists k, pk self = Some k /\ exists_pk k table = false /\
    self' = pre_save true now (pre_save false now self) /\
    violation None self' = None /\ table' = table ++ [self'].

Definition inserted (table : list R) (self : R) (now : Z) (self' : R)
    (table' : list R) : Prop :=
  pk self = None /\ violation None (pre_save true now self) = None /\
  self' = with_pk (next_pk table) (pre_save true now self) /\
  table' = table ++ [self'].
End SaveOutcomes.

Definition user_exists (db : Database) (u : Z) : bool := is_in u (users db).

Definition optional_user_exists (db : Database) (u : option Z) : bool :=
  match u with
  | Some k => user_exists db k
  | None => true
  end.

(** The constraints of app_articles: [slug] is unique; [author],
    [updater] and [category] are foreign keys. *)
Definition Article_violation (db : Database) (own : option Z) (a : Article.t)
    : option DbError :=
  if existsb (fun b => String.eqb (Article.slug b) (Article.slug a)
                       && negb (is_own own b)) (articles db)
  then Some (UniqueViolation ["slug"])
  else if negb (user_exists db (Article.author a))
  then Some (ForeignKeyViolation "author")
  else if negb (optional_user_exists db (Article.updater a))
  then Some (ForeignKeyViolation "updater")
  else if negb (exists_pk (Article.category a) (categories db))
  then Some (ForeignKeyViolation "category")
  else None.

(** [super().save(...)] of Article. *)
Definition Article_super_save (db : Database) (self : Article.t) (now : Z)
    : Outcome * Article.t * Database :=
  let '(outcome, self', table) :=
    save_base (Article_violation db) (articles db) self now in
  (outcome, self', set_articles table db).

Section ArticleSave.
(** [unique_slugify(instance, title)] of modules.services.utils; it may
    consult the stored articles. *)
Variable unique_slugify : Database -> Article.t -> string -> string.

(** [Article.save]:
    if not self.slug: self.slug = unique_slugify(self, self.title)
    super().save(...) *)
Definition Article_save (db : Database) (self : Article.t) (now : Z)
    : Outcome * Article.t * Database :=
  let self :=
    if String.eqb (Article.slug self) ""
    then Article.with_slug (unique_slugify db self (Article.title self)) self
    else self in
  Article_super_save db self now.
End ArticleSave.


(** The constraints of the ratings table: (article, ip_address) is
    unique together; [article] and [user] are foreign keys. *)
Definition Rating_violation (db : Database) (own : option Z) (r : Rating.t)
    : option DbError :=
  if existsb (fun q => (Rating.article q =? Rating.article r)
                       && String.eqb (Rating.ip_address q) (Rating.ip_address r)
                       && negb (is_own own q)) (ratings db)
  then Some (UniqueViolation Rating.unique_together)
  else if negb (exists_pk (Rating.article r) (articles db))
  then Some (ForeignKeyViolation "article")
  else if negb (optional_user_exists db (Rating.user r))
  then Some (ForeignKeyViolation "user")
  else None.

(** [Rating.save] is the inherited [Model.save]. *)
Definition Rating_save (db : Database) (self : Rating.t) (now : Z)
    : Outcome * Rating.t * Database :=
  let '(outcome, self', table) :=
    save_base (Rating_violation db) (ratings db) self now in
  (outcome, self', set_ratings table db).

(** The constraints of app_comments: three foreign keys. *)
Definition Comment_violation (db : Database) (own : option Z) (c : Comment.t)
    : option DbError :=
  if negb (exists_pk (Comment.article c) (articles db))
  then Some (ForeignKeyViolation "article")
  else if negb (user_exists db (Comment.author c))
  then Some (ForeignKeyViolation "author")
  else if match Comment.parent c with
          | Some p => negb (exists_pk p (comments db))
          | None => false
          end
  then Some (ForeignKeyViolation "parent")
  else None.

Definition Comment_save (db : Database) (self : Comment.t) (now : Z)
    : Outcome * Comment.t * Database :=
  let '(outcome, self', table) :=
    save_base (Comment_violation db) (comments db) self now in
  (outcome, self', set_comments table db).

(** ** Creating instances: field defaults *)

Definition default {A : Type} (d : A) (given : option A) : A :=
  match given with
  | Some x => x
  | None => d
  end.

(** The keyword arguments of [Article(...)]; an argument left out is
    [None].  The category has no default and must be given. *)
Record Article_kwargs := {
  kw_title : option string;
  kw_slug : option string;
  kw_short_description : option string;
  kw_full_description : option string;
  kw_thumbnail : option string;
  kw_status : option string;
  kw_author : option Z;
  kw_updater : option Z;
  kw_fixed : option bool;
  kw_category : Z
}.

(** [Article(...)] with keyword arguments: every field left out takes the default of its
    declaration.  The two datetimes are filled in by [pre_save] when the
    row is inserted. *)
Definition Article_init (kw : Article_kwargs) : Article.t :=
  {| Article.id := None;
     Article.title := default "" (kw_title kw);
     Article.slug := default "" (kw_slug kw);
     Article.short_description := default "" (kw_short_description kw);
     Article.full_description := default "" (kw_full_description kw);
     Article.thumbnail := default "" (kw_thumbnail kw);
     Article.status := default "published" (kw_status kw);
     Article.time_create := 0;
     Article.time_update := 0;
     Article.author := default 1 (kw_author kw);
     Article.updater := kw_updater kw;
     Article.fixed := default false (kw_fixed kw);
     Article.category := kw_category kw |}.

(** [Article.objects.create(...)] *)
Definition Article_create
    (unique_slugify : Database -> Article.t -> string -> string)
    (db : Database) (kw : Article_kwargs) (now : Z)
    : Outcome * Article.t * Database :=
  Article_save unique_slugify db (Article_init kw) now.

Record Comment_kwargs := {
  ckw_article : Z;
  ckw_author : Z;
  ckw_content : option string;
  ckw_status : option string;
  ckw_parent : option Z
}.

Definition Comment_init (kw : Comment_kwargs) : Comment.t :=
  {| Comment.id := None;
     Comment.article := ckw_article kw;
     Comment.author := ckw_author kw;
     Comment.content := default "" (ckw_content kw);
     Comment.time_create := 0;
     Comment.time_update := 0;
     Comment.status := default "published" (ckw_status kw);
     Comment.parent := ckw_parent kw |}.

Definition Comment_create (db : Database) (kw : Comment_kwargs) (now : Z)
    : Outcome * Comment.t * Database :=
  Comment_save db (Comment_init kw) now.

(** The fields of an article that the caller sets: all but the key and
    the two automatic datetimes. *)
Definition same_given_fields (a b : Article.t) : Prop :=
  Article.title a = Article.title b /\
  Article.slug a = Article.slug b /\
  Article.short_description a = Article.short_description b /\
  Article.full_description a = Article.full_description b /\
  Article.thumbnail a = Article.thumbnail b /\
  Article.status a = Article.status b /\
  Article.author a = Article.author b /\
  Article.updater a = Article.updater b /\
  Article.fixed a = Article.fixed b /\
  Article.category a = Article.category b.

(** A stand-in for the slug utility, for examples: the title with a
    numeric suffix. *)
Definition suffix_slugify (db : Database) (self : Article.t) (title : string)
    : string :=
  String.append title "-2".

Definition hello_article : Article.t :=
  {| Article.id := Some 1; Article.title := "hello"; Article.slug := "hello";
     Article.short_description := ""; Article.full_description := "";
     Article.thumbnail := ""; Article.status := "draft";
     Article.time_create := 5; Article.time_update := 5;
     Article.author := 1; Article.updater := None;
     Article.fixed := false; Article.category := 1 |}.

Definition tech_category : Category.t :=
  {| Category.id := Some 1; Category.title := "Tech"; Category.slug := "tech";
     Category.description := ""; Category.parent := None |}.

(** One user, one category, one stored article with slug 'hello'. *)
Definition hello_db : Database :=
  {| users := [1]; categories := [tech_category]; articles := [hello_article];
     comments := []; ratings := []; views := [] |}.

(** A second article with the same title and no slug yet. *)
Definition unslugged_article : Article.t :=
  {| Article.id := None; Article.title := "hello"; Article.slug := "";
     Article.short_description := ""; Article.full_description := "";
     Article.thumbnail := ""; Article.status := "published";
     Article.time_create := 0; Article.time_update := 0;
     Article.author := 1; Article.updater := None;
     Article.fixed := false; Article.category := 1 |}.

(** A comment on the stored article, created with defaults. *)
Definition first_comment_kwargs : Comment_kwargs :=
  {| ckw_article := 1; ckw_author := 1; ckw_content := Some "Nice";
     ckw_status := None; ckw_parent := None |}.

Definition news_kwargs : Article_kwargs :=
  {| kw_title := Some "news"; kw_slug := Some "news";
     kw_short_description := None; kw_full_description := None;
     kw_thumbnail := None; kw_status := None; kw_author := None;
     kw_updater := None; kw_fixed := None; kw_category := 1 |}.

(** ** The aggregate rating *)

(** What [unique_together] keeps unique. *)
Definition Rating_key (r : Rating.t) : Z * string :=
  (Rating.article r, Rating.ip_address r).

(** An Article object in memory: the fields of its row and, when it was
    loaded by a query set with [prefetch_related('ratings')], the ratings
    that were loaded along with it (the prefetch cache of the object). *)
Record ArticleInstance := {
  fields : Article.t;
  prefetched_ratings : option (list Rating.t)
}.

(** An object that carries no prefetched ratings: one built by
    [Article(...)], returned by [save], or loaded by a query set that
    does not prefetch them. *)
Definition unfetched (a : Article.t) : ArticleInstance :=
  {| fields := a; prefetched_ratings := None |}.

(** The query behind the related manager [ratings] of the article with
    key [k]: the stored ratings whose [article] is [k], in the default
    ordering of Rating. *)
Definition ratings_of (db : Database) (k : Z) : list Rating.t :=
  order_by Rating.field_compare Rating.Meta_ordering
    (filter (fun r => Rating.article r =? k) (ratings db)).

(** The objects a query set evaluates to.  With 'ratings' among the
    names given to [prefetch_related], every object gets the ratings of
    its article as they are stored at this moment. *)
Definition fetch_instances (db : Database) (qs : QuerySet) : list ArticleInstance :=
  map (fun a =>
         {| fields := a;
            prefetched_ratings :=
              if existsb (String.eqb "ratings") (qs_prefetch_related qs)
              then Some (match Article.id a with
                         | Some k => ratings_of db k
                         | None => []
                         end)
              else None |})
    (fetch db qs).

(** How a call that may raise ValueError ends. *)
Inductive Raising (A : Type) :=
| Result (a : A)
| ValueError.
Arguments Result {A} a.
Arguments ValueError {A}.

(** [self.ratings.all()].  The related manager cannot be used on an
    object without key (ValueError, as raised by Django 4.1 and later);
    on an object with prefetched ratings it answers from them, without a
    query; otherwise it reads the stored ratings of the article. *)
Definition Article_ratings_all (db : Database) (self : ArticleInstance)
    : Raising (list Rating.t) :=
  match Article.id (fields self) with
  | None => ValueError
  | Some k =>
      match prefetched_ratings self with
      | Some cached => Result cached
      | None => Result (ratings_of db k)
      end
  end.

(** Python's [sum] of a list of integers. *)
Definition sum (values : list Z) : Z := fold_left Z.add values 0.

(** [Article.get_sum_rating]:
    return sum([rating.value for rating in self.ratings.all()]) *)
Definition get_sum_rating (db : Database) (self : ArticleInstance) : Raising Z :=
  match Article_ratings_all db self with
  | Result rated => Result (sum (map Rating.value rated))
  | ValueError => ValueError
  end.

Definition like_from (ip : string) : Rating.t :=
  {| Rating.id := None; Rating.article := 1; Rating.user := None;
     Rating.value := 1; Rating.time_create := 0; Rating.ip_address := ip |}.

Definition dislike_from (ip : string) : Rating.t :=
  {| Rating.id := None; Rating.article := 1; Rating.user := None;
     Rating.value := -1; Rating.time_create := 0; Rating.ip_address := ip |}.

(** The state [db] after [self] has been saved at time [now]. *)
Definition after_rating (db : Database) (self : Rating.t) (now : Z) : Database :=
  snd (Rating_save db self now).

(** [hello_db] after a like from 1.2.3.4. *)
Definition liked_once_db : Database := after_rating hello_db (like_from "1.2.3.4") 10.

(** ... and then a like from 1.2.3.5 and a dislike from 1.2.3.6. *)
Definition rated_thrice_db : Database :=
  after_rating (after_rating liked_once_db (like_from "1.2.3.5") 11)
    (dislike_from "1.2.3.6") 12.

(** ** Deleting: the collector *)

Definition pk_in {R : Type} `{Model R} (s : list Z) (r : R) : bool :=
  match pk r with
  | Some k => is_in k s
  | None => false
  end.

Section Collect.
Context {R : Type} `{Model R}.
(** The self-referential foreign key of a tree model, declared with
    [on_delete=CASCADE]. *)
Variable parent : R -> option Z.

Definition child_of (seen : list Z) (r : R) : bool :=
  match parent r with
  | Some p => is_in p seen
  | None => false
  end.

(** The keys of the rows that refer to a collected row and have not been
    collected themselves. *)
Definition reached_next (table : list R) (seen : list Z) : list Z :=
  pks (filter (fun r => child_of seen r && negb (pk_in seen r)) table).

(** The collector follows the cascade until nothing new is reached; a
    row is collected once.  [rounds] bounds the number of steps. *)
Fixpoint cascade (rounds : nat) (table : list R) (seen : list Z) : list Z :=
  match rounds with
  | O => seen
  | S n =>
      match reached_next table seen with
      | [] => seen
      | more => cascade n table (seen ++ more)
      end
  end.

(** Every step collects a row of the table that was not collected
    before, so as many rounds as the table has rows are enough. *)
Definition collect (table : list R) (seeds : list Z) : list Z :=
  cascade (List.length table) table seeds.

(** The rows not collected yet. *)
Definition unseen (table : list R) (seen : list Z) : list R :=
  filter (fun r => match pk r with
                   | Some k => negb (is_in k seen)
                   | None => false
                   end) table.

(** [k] is one of [seeds] or the key of a row below one of them in the
    tree. *)
Inductive reaches (table : list R) (seeds : list Z) : Z -> Prop :=
| reaches_seed k : In k seeds -> reaches table seeds k
| reaches_child r k p :
    In r table -> pk r = Some k -> parent r = Some p ->
    reaches table seeds p -> reaches table seeds k.
End Collect.

(** [Category.delete]: the categories below it go with it
    ([parent]: CASCADE), unless an article refers to one of the collected
    categories ([Article.category]: PROTECT); then nothing is deleted. *)
Definition Category_delete (db : Database) (k : Z) : Outcome * Database :=
  let doomed := collect Category.parent (categories db) [k] in
  if existsb (fun a => is_in (Article.category a) doomed) (articles db)
  then (Raised (ProtectedError "Article.category"), db)
  else (Done, set_categories
                (filter (fun c => negb (pk_in doomed c)) (categories db)) db).

(** The comments collected when article [k] is deleted: those on the
    article ([Comment.article]: CASCADE) and the replies below them
    ([Comment.parent]: CASCADE). *)
Definition doomed_comments (db : Database) (k : Z) : list Z :=
  collect Comment.parent (comments db)
    (pks (filter (fun c => Comment.article c =? k) (comments db))).

(** [Article.delete]: comments, ratings and views of the article are
    deleted with it (CASCADE on each [article] key); nothing protects an
    article. *)
Definition Article_delete (db : Database) (k : Z) : Outcome * Database :=
  (Done,
   {| users := users db;
      categories := categories db;
      articles := filter (fun a => negb (has_pk k a)) (articles db);
      comments := filter (fun c => negb (pk_in (doomed_comments db k) c)) (comments db);
      ratings := filter (fun r => negb (Rating.article r =? k)) (ratings db);
      views := filter (fun v => negb (ViewCount.article v =? k)) (views db) |}).

(** Every stored row has a key. *)
Definition all_keyed {R : Type} `{Model R} (table : list R) : Prop :=
  forall r, In r table -> pk r <> None.

(** A reply is a comment on the article of the comment it replies to. *)
Definition replies_stay_in_article (table : list Comment.t) : Prop :=
  forall c p k, In c table -> In p table ->
    Comment.parent c = Some k -> Comment.id p = Some k ->
    Comment.article c = Comment.article p.

Definition ai_category : Category.t :=
  {| Category.id := Some 2; Category.title := "AI"; Category.slug := "ai";
     Category.description := ""; Category.parent := Some 1 |}.

Definition ai_article : Article.t :=
  {| Article.id := Some 1; Article.title := "Models"; Article.slug := "models";
     Article.short_description := ""; Article.full_description := "";
     Article.thumbnail := ""; Article.status := "published";
     Article.time_create := 5; Article.time_update := 5;
     Article.author := 1; Article.updater := None;
     Article.fixed := false; Article.category := 2 |}.

(** Category Tech with the child category AI; the only article is in
    AI. *)
Definition tech_ai_db : Database :=
  {| users := [1]; categories := [tech_category; ai_category];
     articles := [ai_article]; comments := []; ratings := []; views := [] |}.

(** The same two categories and no article. *)
Definition tech_ai_empty_db : Database :=
  {| users := [1]; categories := [tech_category; ai_category];
     articles := []; comments := []; ratings := []; views := [] |}.

Definition second_article : Article.t :=
  {| Article.id := Some 2; Article.title := "other"; Article.slug := "other";
     Article.short_description := ""; Article.full_description := "";
     Article.thumbnail := ""; Article.status := "published";
     Article.time_create := 6; Article.time_update := 6;
     Article.author := 1; Article.updater := None;
     Article.fixed := false; Article.category := 1 |}.

Definition two_article_db : Database :=
  {| users := [1]; categories := [tech_category];
     articles := [hello_article; second_article];
     comments := []; ratings := []; views := [] |}.

(** A comment on article 2 that replies to comment 1, a comment on
    article 1. *)
Definition cross_reply_kwargs : Comment_kwargs :=
  {| ckw_article := 2; ckw_author := 1; ckw_content := Some "Re: Nice";
     ckw_status := None; ckw_parent := Some 1 |}.

Definition cross_reply_db : Database :=
  snd (Comment_create
         (snd (Comment_create two_article_db first_comment_kwargs 8))
         cross_reply_kwargs 9).

Definition cross_reply : Comment.t :=
  {| Comment.id := Some 2; Comment.article := 2; Comment.author := 1;
     Comment.content := "Re: Nice"; Comment.time_create := 9;
     Comment.time_update := 9; Comment.status := "published";
     Comment.parent := Some 1 |}.

(** A reply within article 1 and a comment, a like and a view on
    article 2. *)
Definition own_reply_kwargs : Comment_kwargs :=
  {| ckw_article := 1; ckw_author := 1; ckw_content := Some "Re: Nice";
     ckw_status := None; ckw_parent := Some 1 |}.

Definition other_comment_kwargs : Comment_kwargs :=
  {| ckw_article := 2; ckw_author := 1; ckw_content := Some "Hm";
     ckw_status := None; ckw_parent := None |}.

Definition discussed_db : Database :=
  snd (Comment_create
         (snd (Comment_create
                 (snd (Comment_create two_article_db first_comment_kwargs 8))
                 own_reply_kwargs 9))
         other_comment_kwargs 10).

(** ** Tree options of the MPTT models *)

(** An inner class of a model's class body: its name and the
    ordering-valued attributes it sets. *)
Definition InnerClass (F : Type) : Type :=
  (string * list (string * list (Direction * F)))%type.

(** [class Category(MPTTModel)]:
    [class MPTTMeta: order_insertion_by = ('title',)]; its [Meta] sets no
    ordering. *)
Definition Category_class_body : list (InnerClass Category.Field) :=
  [("MPTTMeta", [("order_insertion_by", [(Asc, Category.F_title)])]);
   ("Meta", [])].

(** [class Comment(MPTTModel)]:
    [class MTTMeta: order_insertion_by = ('-time_create',)] and
    [class Meta: ordering = ['-time_create']]. *)
Definition Comment_class_body : list (InnerClass Comment.Field) :=
  [("MTTMeta", [("order_insertion_by", [(Desc, Comment.F_time_create)])]);
   ("Meta", [("ordering", [(Desc, Comment.F_time_create)])])].

Definition class_attribute {F : Type} (body : list (InnerClass F))
    (class_name attribute : string) : option (list (Direction * F)) :=
  match find (fun c => String.eqb (fst c) class_name) body with
  | Some c =>
      match find (fun a => String.eqb (fst a) attribute) (snd c) with
      | Some a => Some (snd a)
      | None => None
      end
  | None => None
  end.

(** Django reads the default ordering from the inner class [Meta]. *)
Definition meta_ordering {F : Type} (body : list (InnerClass F))
    : list (Direction * F) :=
  default [] (class_attribute body "Meta" "ordering").

(** django-mptt reads the tree options from the inner class named
    [MPTTMeta]; without it [order_insertion_by] is the empty list. *)
Definition mptt_order_insertion_by {F : Type} (body : list (InnerClass F))
    : list (Direction * F) :=
  default [] (class_attribute body "MPTTMeta" "order_insertion_by").

Section TreeInsertion.
Context {A F : Type} `{Model A}.
Variable field_compare : F -> A -> A -> comparison.

(** [get_ordered_insertion_target]: of the siblings that sort strictly
    after the new node, the first in [order_insertion_by] order. *)
Definition get_ordered_insertion_target
    (order_insertion_by : list (Direction * F)) (siblings : list A) (node : A)
    : option A :=
  hd_error
    (order_by field_compare order_insertion_by
       (filter (fun s => match compare_by field_compare order_insertion_by node s with
                         | Lt => true
                         | _ => false
                         end) siblings)).

(** [insert_at(target, position='left')] *)
Fixpoint insert_left_of (target node : A) (siblings : list A) : list A :=
  match siblings with
  | [] => [node]
  | s :: rest =>
      if eqb_option_Z (pk s) (pk target) then node :: s :: rest
      else s :: insert_left_of target node rest
  end.

(** Where [MPTTModel.save] puts a new node.  [siblings] are the children
    of its parent (the roots, for a node without parent) from left to
    right; this is the order in which the default manager of an MPTT
    model returns them, since its query set is ordered by tree_id and
    lft and not by [Meta.ordering].  With [order_insertion_by] the node
    goes left of its insertion target, and otherwise, or without a
    target, it becomes the last child. *)
Definition insert_node (order_insertion_by : list (Direction * F))
    (siblings : list A) (node : A) : list A :=
  match order_insertion_by with
  | [] => siblings ++ [node]
  | _ =>
      match get_ordered_insertion_target order_insertion_by siblings node with
      | Some right_sibling => insert_left_of right_sibling node siblings
      | None => siblings ++ [node]
      end
  end.
End TreeInsertion.

(** Two comments on the same article, both without parent. *)
Definition earlier_comment : Comment.t :=
  {| Comment.id := Some 1; Comment.article := 1; Comment.author := 1;
     Comment.content := "first"; Comment.time_create := 8;
     Comment.time_update := 8; Comment.status := "published";
     Comment.parent := None |}.

Definition later_comment : Comment.t :=
  {| Comment.id := Some 2; Comment.article := 1; Comment.author := 1;
     Comment.content := "second"; Comment.time_create := 9;
     Comment.time_update := 9; Comment.status := "published";
     Comment.parent := None |}.

(** ** Views, and deleting comments and users *)

Definition set_views (l : list ViewCount.t) (db : Database) : Database :=
  {| users := users db; categories := categories db; articles := articles db;
     comments := comments db; ratings := ratings db; views := l |}.

(** [viewed_on] has auto_now_add. *)
#[export] Instance ViewCount_Model : Model ViewCount.t := {
  pk := ViewCount.id;
  with_pk := fun k v =>
    {| ViewCount.id := Some k; ViewCount.article := ViewCount.article v;
       ViewCount.ip_address := ViewCount.ip_address v;
       ViewCount.viewed_on := ViewCount.viewed_on v |};
  pre_save := fun add now v =>
    {| ViewCount.id := ViewCount.id v; ViewCount.article := ViewCount.article v;
       ViewCount.ip_address := ViewCount.ip_address v;
       ViewCount.viewed_on := if add then now else ViewCount.viewed_on v |}
}.

(** The only constraint of the views table is the foreign key
    [article]; [class Meta] of ViewCount declares nothing unique. *)
Definition ViewCount_violation (db : Database) (own : option Z) (v : ViewCount.t)
    : option DbError :=
  if negb (exists_pk (ViewCount.article v) (articles db))
  then Some (ForeignKeyViolation "article")
  else None.

(** [ViewCount.save] is the inherited [Model.save]. *)
Definition ViewCount_save (db : Database) (self : ViewCount.t) (now : Z)
    : Outcome * ViewCount.t * Database :=
  let '(outcome, self', table) :=
    save_base (ViewCount_violation db) (views db) self now in
  (outcome, self', set_views table db).

(** [article.views.all()] counted. *)
Definition views_of (db : Database) (k : Z) : list ViewCount.t :=
  filter (fun v => ViewCount.article v =? k) (views db).

(** [Comment.delete]: the replies below the comment go with it
    ([parent]: CASCADE); no other model refers to a comment. *)
Definition Comment_delete (db : Database) (k : Z) : Outcome * Database :=
  (Done,
   set_comments
     (filter (fun c => negb (pk_in (collect Comment.parent (comments db) [k]) c))
        (comments db)) db).

(** The default of [Article.author]: [default=1]. *)
Definition Article_author_default : Z := 1.

(** The comments collected when user [u] is deleted: those written by
    the user ([Comment.author]: CASCADE) and the replies below them. *)
Definition doomed_by_author (db : Database) (u : Z) : list Z :=
  collect Comment.parent (comments db)
    (pks (filter (fun c => Comment.author c =? u) (comments db))).

Definition reassign_author (u : Z) (a : Article.t) : Article.t :=
  {| Article.id := Article.id a; Article.title := Article.title a;
     Article.slug := Article.slug a;
     Article.short_description := Article.short_description a;
     Article.full_description := Article.full_description a;
     Article.thumbnail := Article.thumbnail a; Article.status := Article.status a;
     Article.time_create := Article.time_create a;
     Article.time_update := Article.time_update a;
     Article.author :=
       if Article.author a =? u then Article_author_default else Article.author a;
     Article.updater :=
       if eqb_option_Z (Article.updater a) (Some u) then None else Article.updater a;
     Article.fixed := Article.fixed a; Article.category := Article.category a |}.

(** Deleting user [u], as far as the models of this application go:
    articles written by the user are handed to the default author
    ([author]: SET_DEFAULT), [updater] is cleared where it was the user
    (SET_NULL), the user's comments with everything below them and the
    user's ratings are deleted (CASCADE).  The deletion is one
    transaction: when an article ends up with an author that does not
    exist, the foreign key refuses it and nothing changes. *)
Definition User_delete (db : Database) (u : Z) : Outcome * Database :=
  let remaining := filter (fun x => negb (x =? u)) (users db) in
  if existsb (fun a => Article.author a =? u) (articles db)
     && negb (is_in Article_author_default remaining)
  then (Raised (ForeignKeyViolation "author"), db)
  else
    (Done,
     {| users := remaining;
        categories := categories db;
        articles := map (reassign_author u) (articles db);
        comments := filter (fun c => negb (pk_in (doomed_by_author db u) c)) (comments db);
        ratings := filter (fun r => negb (eqb_option_Z (Rating.user r) (Some u))) (ratings db);
        views := views db |}).

(** Every foreign key of every stored row refers to a stored row. *)
Definition referential_integrity (db : Database) : Prop :=
  (forall c p, In c (categories db) -> Category.parent c = Some p ->
               In p (pks (categories db))) /\
  (forall a, In a (articles db) ->
             In (Article.author a) (users db) /\
             (forall u, Article.updater a = Some u -> In u (users db)) /\
             In (Article.category a) (pks (categories db))) /\
  (forall c, In c (comments db) ->
             In (Comment.article c) (pks (articles db)) /\
             In (Comment.author c) (users db) /\
             (forall p, Comment.parent c = Some p -> In p (pks (comments db)))) /\
  (forall r, In r (ratings db) ->
             In (Rating.article r) (pks (articles db)) /\
             (forall u, Rating.user r = Some u -> In u (users db))) /\
  (forall v, In v (views db) -> In (ViewCount.article v) (pks (articles db))).

Definition view_from (ip : string) : ViewCount.t :=
  {| ViewCount.id := None; ViewCount.article := 1;
     ViewCount.ip_address := ip; ViewCount.viewed_on := 0 |}.

(** ** Text representations ([__str__]) *)

(** How the evaluation of an expression on an instance ends. *)
Inductive PyResult (A : Type) :=
| Returned (a : A)
| AttributeError (attribute : string)
| DoesNotExist (model : string).
Arguments Returned {A} a.
Arguments AttributeError {A} attribute.
Arguments DoesNotExist {A} model.

Inductive PyValue :=
| PyInt (z : Z)
| PyStr (s : string)
| PyNone
| PyArticle (a : Article.t)
| PyUser (key : Z).

Definition py_optional_int (z : option Z) : PyValue :=
  match z with
  | Some k => PyInt k
  | None => PyNone
  end.

(** [Article.__str__]: return self.title *)
Definition Article_str (self : Article.t) : string := Article.title self.

(** [Category.__str__]: return self.title *)
Definition Category_str (self : Category.t) : string := Category.title self.

Section Str.
(** The text of a user, which the authentication application decides. *)
Variable User_str : Z -> string.

(** [str(value)], as an f-string formats a value. *)
Definition py_str (v : PyValue) : string :=
  match v with
  | PyInt z => NilZero.string_of_int (Z.to_int z)
  | PyStr s => s
  | PyNone => "None"
  | PyArticle a => Article_str a
  | PyUser k => User_str k
  end.

(** The attributes a Rating instance answers to: [self.<name>] for the
    key (as [id] and [pk]), the declared fields, and the raw foreign
    keys; reading [article] loads the row it refers to.  Any other name
    is an AttributeError. *)
Definition Rating_getattr (db : Database) (self : Rating.t) (name : string)
    : PyResult PyValue :=
  if String.eqb name "id" then Returned (py_optional_int (Rating.id self))
  else if String.eqb name "pk" then Returned (py_optional_int (Rating.id self))
  else if String.eqb name "article" then
    match find (has_pk (Rating.article self)) (articles db) with
    | Some a => Returned (PyArticle a)
    | None => DoesNotExist "Article"
    end
  else if String.eqb name "article_id" then Returned (PyInt (Rating.article self))
  else if String.eqb name "user" then
    Returned (match Rating.user self with
              | Some u => PyUser u
              | None => PyNone
              end)
  else if String.eqb name "user_id" then Returned (py_optional_int (Rating.user self))
  else if String.eqb name "value" then Returned (PyInt (Rating.value self))
  else if String.eqb name "time_create" then Returned (PyInt (Rating.time_create self))
  else if String.eqb name "ip_address" then Returned (PyStr (Rating.ip_address self))
  else AttributeError name.

(** The first [__str__] of the class body of Rating:
    return self.article.title *)
Definition Rating_str_article_title (db : Database) (self : Rating.t)
    : PyResult string :=
  match Rating_getattr db self "article" with
  | Returned (PyArticle a) => Returned (Article.title a)
  | Returned _ => AttributeError "title"
  | AttributeError n => AttributeError n
  | DoesNotExist m => DoesNotExist m
  end.

(** The second [__str__] of the class body of Rating:
    return f'{self.author}:{self.content}' *)
Definition Rating_str_author_content (db : Database) (self : Rating.t)
    : PyResult string :=
  match Rating_getattr db self "author" with
  | Returned author =>
      match Rating_getattr db self "content" with
      | Returned content =>
          Returned (String.append (py_str author)
                      (String.append ":" (py_str content)))
      | AttributeError n => AttributeError n
      | DoesNotExist m => DoesNotExist m
      end
  | AttributeError n => AttributeError n
  | DoesNotExist m => DoesNotExist m
  end.

(** The methods of the class body of Rating in the order they are
    defined. *)
Definition Rating_class_methods
    : list (string * (Database -> Rating.t -> PyResult string)) :=
  [("__str__", Rating_str_article_title);
   ("__str__", Rating_str_author_content)].

(** A name defined twice in a class body is bound to the later
    definition. *)
Definition bound_method {M : Type} (methods : list (string * M)) (name : string)
    : option M :=
  match find (fun m => String.eqb (fst m) name) (rev methods) with
  | Some m => Some (snd m)
  | None => None
  end.

(** [str(rating)] *)
Definition Rating_str (db : Database) (self : Rating.t) : PyResult string :=
  match bound_method Rating_class_methods "__str__" with
  | Some method => method db self
  | None => AttributeError "__str__"
  end.

(** [ViewCount.__str__]: return self.article.title *)
Definition ViewCount_str (db : Database) (self : ViewCount.t) : PyResult string :=
  match find (has_pk (ViewCount.article self)) (articles db) with
  | Some a => Returned (Article.title a)
  | None => DoesNotExist "Article"
  end.
End Str.

(** ** Keys *)

(** Every row of the table has a key and no two rows share one. *)
Definition keyed_distinct {R : Type} `{Model R} (table : list R) : Prop :=
  all_keyed table /\ NoDup (pks table).

Definition keys_well_formed (db : Database) : Prop :=
  keyed_distinct (categories db) /\ keyed_distinct (articles db) /\
  keyed_distinct (comments db) /\ keyed_distinct (ratings db) /\
  keyed_distinct (views db).

(** ** Further examples *)


(** A like for article 2, the published article of [two_article_db]. *)
Definition like_second_from (ip : string) : Rating.t :=
  {| Rating.id := None; Rating.article := 2; Rating.user := None;
     Rating.value := 1; Rating.time_create := 0; Rating.ip_address := ip |}.

(** The object for article 2 as [ArticleManager.all] loads it from
    [two_article_db], where no rating is stored. *)
Definition second_as_listed : ArticleInstance :=
  {| fields := second_article; prefetched_ratings := Some [] |}.

Definition Article_without_id (a : Article.t) : Article.t :=
  {| Article.id := None; Article.title := Article.title a;
     Article.slug := Article.slug a;
     Article.short_description := Article.short_description a;
     Article.full_description := Article.full_description a;
     Article.thumbnail := Article.thumbnail a; Article.status := Article.status a;
     Article.time_create := Article.time_create a;
     Article.time_update := Article.time_update a;
     Article.author := Article.author a; Article.updater := Article.updater a;
     Article.fixed := Article.fixed a; Article.category := Article.category a |}.

(** [self.delete()] on an Article object: an object without key cannot
    be deleted (ValueError); otherwise the row with its key and what
    depends on it are deleted, and the object loses its key while it
    keeps everything else, prefetched ratings included. *)
Definition Article_instance_delete (db : Database) (self : ArticleInstance)
    : Raising (ArticleInstance * Database) :=
  match Article.id (fields self) with
  | None => ValueError
  | Some k =>
      Result ({| fields := Article_without_id (fields self);
                 prefetched_ratings := prefetched_ratings self |},
              snd (Article_delete db k))
  end.

(** * Properties *)

(** ** Orderings *)

Lemma eqb_option_Z_true (x y : option Z) : eqb_option_Z x y = true <-> x = y.
Proof.
  destruct x as [a|], y as [b|]; simpl; split; intro H;
    try discriminate; try reflexivity.
  - apply Z.eqb_eq in H. now subst.
  - injection H as ->. apply Z.eqb_refl.
Qed.

Section OrderByFacts.
Context {A F : Type}.
Variable field_compare : F -> A -> A -> comparison.

Lemma place_perm ordering a l : Permutation (a :: l) (place field_compare ordering a l).
Proof.
  induction l as [|b l IH]; simpl.
  - apply Permutation_refl.
  - destruct (not_after field_compare ordering a b).
    + apply Permutation_refl.
    + eapply perm_trans; [apply perm_swap|]. now apply perm_skip.
Qed.

Lemma order_by_perm ordering l : Permutation l (order_by field_compare ordering l).
Proof.
  induction l as [|a l IH]; simpl.
  - constructor.
  - eapply perm_trans; [apply perm_skip, IH|]. apply place_perm.
Qed.

Lemma order_by_In ordering l x : In x (order_by field_compare ordering l) <-> In x l.
Proof.
  split; apply Permutation_in;
    [apply Permutation_sym|]; apply order_by_perm.
Qed.

Section Sorted.
Variable ordering : list (Direction * F).
Hypothesis total : forall a b,
    not_after field_compare ordering a b = false -> not_after field_compare ordering b a = true.
Hypothesis trans : forall a b c,
    not_after field_compare ordering a b = true -> not_after field_compare ordering b c = true ->
    not_after field_compare ordering a c = true.

Let R (a b : A) : Prop := not_after field_compare ordering a b = true.

Lemma place_sorted a l :
  StronglySorted R l -> StronglySorted R (place field_compare ordering a l).
Proof.
  induction 1 as [|b l Hs IH Hb]; simpl.
  - repeat constructor.
  - destruct (not_after field_compare ordering a b) eqn:E.
    + constructor; [now constructor|].
      constructor; [exact E|].
      eapply Forall_impl; [|exact Hb].
      intros c Hc. now apply trans with b.
    + constructor; [exact IH|].
      apply (Permutation_Forall (place_perm ordering a l)).
      constructor; [now apply total | exact Hb].
Qed.

Lemma order_by_sorted l : StronglySorted R (order_by field_compare ordering l).
Proof.
  induction l as [|a l IH]; simpl; [constructor | now apply place_sorted].
Qed.

Lemma sorted_precedes l x y :
  StronglySorted R l -> In x l -> In y l ->
  not_after field_compare ordering y x = false -> precedes x y l.
Proof.
  intros Hs. induction Hs as [|h t Hs IH Hh]; intros Hx Hy Hyx.
  - destruct Hx.
  - destruct Hy as [<-|Hy].
    + exfalso. destruct Hx as [<-|Hx].
      * pose proof (total _ _ Hyx) as H. congruence.
      * rewrite Forall_forall in Hh. specialize (Hh _ Hx).
        unfold R in Hh. congruence.
    + destruct Hx as [<-|Hx].
      * destruct (in_split _ _ Hy) as (l2 & l3 & ->).
        now exists [], l2, l3.
      * destruct (IH Hx Hy Hyx) as (l1 & l2 & l3 & ->).
        now exists (h :: l1), l2, l3.
Qed.
End Sorted.
End OrderByFacts.

(** ** The default ordering of Article *)

Lemma Article_not_after_iff (a b : Article.t) :
  not_after Article.field_compare Article.Meta_ordering a b = true <->
  Article.time_create b < Article.time_create a \/
  (Article.time_create a = Article.time_create b /\
   (Article.fixed a = true \/ Article.fixed b = false)).
Proof.
  unfold not_after, Article.Meta_ordering, compare_by, term_compare; simpl.
  destruct (Z.compare_spec (Article.time_create a) (Article.time_create b));
    destruct (Article.fixed a), (Article.fixed b); simpl;
    split; intros; try reflexivity; try discriminate; try lia; intuition (try lia; try discriminate).
Qed.

Lemma Article_ordering_total (a b : Article.t) :
  not_after Article.field_compare Article.Meta_ordering a b = false ->
  not_after Article.field_compare Article.Meta_ordering b a = true.
Proof.
  intros H. apply Article_not_after_iff.
  destruct (Z.lt_trichotomy (Article.time_create a) (Article.time_create b))
    as [Hlt|[Heq|Hgt]].
  - now left.
  - right. split; [now symmetry|].
    destruct (Article.fixed b) eqn:Eb; [now left|].
    destruct (Article.fixed a) eqn:Ea; [|now right].
    exfalso.
    assert (not_after Article.field_compare Article.Meta_ordering a b = true)
      by (apply Article_not_after_iff; right; split; [exact Heq | now left]).
    congruence.
  - exfalso.
    assert (not_after Article.field_compare Article.Meta_ordering a b = true)
      by (apply Article_not_after_iff; left; lia).
    congruence.
Qed.

Lemma Article_ordering_trans (a b c : Article.t) :
  not_after Article.field_compare Article.Meta_ordering a b = true ->
  not_after Article.field_compare Article.Meta_ordering b c = true ->
  not_after Article.field_compare Article.Meta_ordering a c = true.
Proof.
  rewrite !Article_not_after_iff.
  intros [H1|[H1 F1]] [H2|[H2 F2]]; try (left; lia).
  right. split; [lia|].
  destruct F1 as [F1|F1]; [now left|].
  destruct F2 as [F2|F2]; [congruence | now right].
Qed.

(** What the declared ordering does in general: of two stored articles
    the one created later always stands first, pinned or not. *)
Lemma Article_ordering_newer_first (db : Database) (a b : Article.t) :
  In a (articles db) -> In b (articles db) ->
  Article.time_create b < Article.time_create a ->
  precedes a b (fetch db get_queryset).
Proof.
  intros Ha Hb Hlt. unfold fetch, get_queryset; simpl.
  apply (sorted_precedes Article.field_compare Article.Meta_ordering
           Article_ordering_total).
  - apply order_by_sorted;
      [apply Article_ordering_total | apply Article_ordering_trans].
  - apply order_by_In, filter_In. now split.
  - apply order_by_In, filter_In. now split.
  - destruct (not_after _ _ b a) eqn:E; [|reflexivity].
    apply Article_not_after_iff in E. lia.
Qed.

Lemma precedes_pair_inv {A : Type} (x y u v : A) :
  precedes x y [u; v] -> x = u /\ y = v.
Proof.
  intros (l1 & l2 & l3 & H).
  destruct l1 as [|p l1]; simpl in H.
  - injection H as -> H. destruct l2 as [|q l2]; simpl in H.
    + now injection H as ->.
    + injection H as _ H. now destruct l2.
  - injection H as _ H. destruct l1 as [|q l1]; simpl in H.
    + injection H as _ H. now destruct l2.
    + injection H as _ H. now destruct l1.
Qed.

(** C1.  With [ordering = ['-time_create', '-fixed']] the creation time
    decides first: a pinned article created at time 100 is listed after a
    non-pinned article created at time 200, in the default query set and
    in both manager policies.  The pinned article does not precede the
    non-pinned one. *)
Theorem Article_ordering_pinned_older_listed_last :
  Article.fixed pinned_older = true /\ Article.fixed plain_newer = false /\
  fetch two_articles get_queryset = [plain_newer; pinned_older] /\
  fetch two_articles ArticleManager_all = [plain_newer; pinned_older] /\
  fetch two_articles ArticleManager_detail = [plain_newer; pinned_older] /\
  ~ precedes pinned_older plain_newer (fetch two_articles get_queryset).
Proof.
  repeat split; try reflexivity.
  change (fetch two_articles get_queryset) with [plain_newer; pinned_older].
  intros H. apply precedes_pair_inv in H. destruct H as [H _].
  discriminate H.
Qed.

(** ** The two query policies *)

Lemma where_published (a : Article.t) :
  forallb (fun p : Article.t -> bool => p a)
    ([] ++ [fun a => String.eqb (Article.status a) "published"]) = is_published a.
Proof. simpl. unfold is_published. apply andb_true_r. Qed.

Lemma fetch_all_perm (db : Database) :
  Permutation (fetch db ArticleManager_all) (filter is_published (articles db)).
Proof.
  unfold fetch. apply Permutation_sym.
  eapply perm_trans; [|apply order_by_perm].
  erewrite filter_ext; [apply Permutation_refl|].
  intros a. symmetry. apply where_published.
Qed.

Lemma fetch_detail_perm (db : Database) :
  Permutation (fetch db ArticleManager_detail) (filter is_published (articles db)).
Proof.
  unfold fetch. apply Permutation_sym.
  eapply perm_trans; [|apply order_by_perm].
  erewrite filter_ext; [apply Permutation_refl|].
  intros a. symmetry. apply where_published.
Qed.

Lemma published_only (l : list Article.t) :
  Forall (fun a => Article.status a = "published" /\ Article.status a <> "draft")
    (filter is_published l).
Proof.
  apply Forall_forall. intros a Ha. apply filter_In in Ha.
  destruct Ha as [_ Ha]. apply String.eqb_eq in Ha.
  split; [exact Ha|]. rewrite Ha. discriminate.
Qed.

(** C2.  For every stored state, the answer of [all] and the answer of
    [detail] are, up to order, exactly the stored articles whose status
    is 'published'; every row of either answer has status 'published'
    and none has status 'draft'. *)
Theorem ArticleManager_policies_published_only (db : Database) :
  Permutation (fetch db ArticleManager_all) (filter is_published (articles db)) /\
  Permutation (fetch db ArticleManager_detail) (filter is_published (articles db)) /\
  Forall (fun a => Article.status a = "published" /\ Article.status a <> "draft")
    (fetch db ArticleManager_all) /\
  Forall (fun a => Article.status a = "published" /\ Article.status a <> "draft")
    (fetch db ArticleManager_detail).
Proof.
  split; [apply fetch_all_perm|].
  split; [apply fetch_detail_perm|].
  split.
  - eapply Permutation_Forall;
      [apply Permutation_sym, fetch_all_perm | apply published_only].
  - eapply Permutation_Forall;
      [apply Permutation_sym, fetch_detail_perm | apply published_only].
Qed.

(** ** Saving *)

#[export] Instance Article_ModelLaws : ModelLaws Article.t.
Proof. split; reflexivity. Qed.

#[export] Instance Comment_ModelLaws : ModelLaws Comment.t.
Proof. split; reflexivity. Qed.

#[export] Instance Rating_ModelLaws : ModelLaws Rating.t.
Proof. split; reflexivity. Qed.

#[export] Instance Category_ModelLaws : ModelLaws Category.t.
Proof. split; reflexivity. Qed.

Lemma existsb_false {A : Type} (f : A -> bool) (l : list A) :
  existsb f l = false -> forall x, In x l -> f x = false.
Proof.
  intros H x Hx. destruct (f x) eqn:E; [|reflexivity].
  assert (existsb f l = true) by (apply existsb_exists; eauto).
  congruence.
Qed.

Lemma false_existsb {A : Type} (f : A -> bool) (l : list A) :
  (forall x, In x l -> f x = false) -> existsb f l = false.
Proof.
  intros H. destruct (existsb f l) eqn:E; [|reflexivity].
  apply existsb_exists in E. destruct E as (x & Hx & Hf).
  rewrite (H x Hx) in Hf. discriminate.
Qed.

Lemma is_in_In (k : Z) (s : list Z) : is_in k s = true <-> In k s.
Proof.
  unfold is_in. rewrite existsb_exists. split.
  - intros (x & Hx & E). apply Z.eqb_eq in E. now subst.
  - intros Hk. exists k. split; [exact Hk | apply Z.eqb_refl].
Qed.

Section TableFacts.
Context {R : Type} `{L : ModelLaws R}.

Lemma has_pk_true (k : Z) (r : R) : has_pk k r = true <-> pk r = Some k.
Proof. apply eqb_option_Z_true. Qed.

Lemma has_pk_false (k : Z) (r : R) : has_pk k r = false <-> pk r <> Some k.
Proof.
  rewrite <- has_pk_true. destruct (has_pk k r); split; congruence.
Qed.

Lemma in_pks (k : Z) (table : list R) :
  In k (pks table) <-> exists r, In r table /\ pk r = Some k.
Proof.
  unfold pks. rewrite in_flat_map. split.
  - intros (r & Hr & Hk). exists r. split; [exact Hr|].
    destruct (pk r) as [j|]; simpl in Hk; [|contradiction].
    destruct Hk as [->|[]]. reflexivity.
  - intros (r & Hr & Hk). exists r. split; [exact Hr|].
    rewrite Hk. now left.
Qed.

Lemma exists_pk_true (k : Z) (table : list R) :
  exists_pk k table = true <-> In k (pks table).
Proof.
  unfold exists_pk. rewrite existsb_exists, in_pks.
  split; intros (r & Hr & Hk); exists r; (split; [exact Hr|]);
    now apply has_pk_true.
Qed.

Lemma exists_pk_false (k : Z) (table : list R) :
  exists_pk k table = false <-> ~ In k (pks table).
Proof.
  rewrite <- exists_pk_true. destruct (exists_pk k table); split; congruence.
Qed.

Lemma pks_app (t1 t2 : list R) : pks (t1 ++ t2) = pks t1 ++ pks t2.
Proof. unfold pks. apply flat_map_app. Qed.

Lemma pks_upper_bound (table : list R) (k : Z) :
  In k (pks table) -> k <= fold_right Z.max 0 (pks table).
Proof.
  induction (pks table) as [|j l IH]; simpl; [contradiction|].
  intros [->|Hk]; [lia|]. specialize (IH Hk). lia.
Qed.

Lemma next_pk_fresh (table : list R) : ~ In (next_pk table) (pks table).
Proof.
  intros Hk. apply pks_upper_bound in Hk. unfold next_pk in Hk. lia.
Qed.

(** The rows of the table after an UPDATE of the row with key [k]. *)
Lemma in_overwritten (k : Z) (row : R) (table : list R) (b : R) :
  In b (map (fun r => if has_pk k r then row else r) table) ->
  b = row \/ (In b table /\ has_pk k b = false).
Proof.
  rewrite in_map_iff. intros (r & E & Hr).
  destruct (has_pk k r) eqn:Ek; subst; [now left | right; now split].
Qed.

Lemma overwritten_in (k : Z) (row : R) (table : list R) :
  exists_pk k table = true ->
  In row (map (fun r => if has_pk k r then row else r) table).
Proof.
  unfold exists_pk. rewrite existsb_exists. intros (r & Hr & Hk).
  apply in_map_iff. exists r. now rewrite Hk.
Qed.

Lemma pks_overwritten (k : Z) (row : R) (table : list R) :
  pk row = Some k ->
  pks (map (fun r => if has_pk k r then row else r) table) = pks table.
Proof.
  intros Hrow. induction table as [|r t IH]; simpl; [reflexivity|].
  unfold pks in *. simpl. rewrite IH. f_equal.
  destruct (has_pk k r) eqn:E; [|reflexivity].
  apply has_pk_true in E. now rewrite Hrow, E.
Qed.

Lemma overwritten_absent (k : Z) (row : R) (table : list R) :
  ~ In k (pks table) ->
  map (fun r => if has_pk k r then row else r) table = table.
Proof.
  intros Hk. rewrite <- (map_id table) at 2. apply map_ext_in.
  intros r Hr. destruct (has_pk k r) eqn:E; [|reflexivity].
  exfalso. apply Hk, in_pks. exists r. split; [exact Hr|].
  now apply has_pk_true.
Qed.

(** A unique key [f] stays unique when a row is overwritten by one whose
    key no other row has. *)
Lemma overwritten_NoDup {K : Type} (f : R -> K) (k : Z) (row : R) (table : list R) :
  NoDup (pks table) -> NoDup (map f table) ->
  (forall b, In b table -> has_pk k b = false -> f b <> f row) ->
  NoDup (map f (map (fun r => if has_pk k r then row else r) table)).
Proof.
  induction table as [|r t IH]; simpl; intros Hpk Hf Hother; [constructor|].
  inversion Hf as [|? ? Hr Ht]; subst.
  assert (Hpkt : NoDup (pks t)).
  { unfold pks in Hpk. simpl in Hpk. now apply NoDup_app_remove_l in Hpk. }
  destruct (has_pk k r) eqn:E.
  - apply has_pk_true in E.
    assert (Hk : ~ In k (pks t)).
    { unfold pks in Hpk. simpl in Hpk. rewrite E in Hpk. simpl in Hpk.
      now inversion Hpk. }
    rewrite (overwritten_absent k row t Hk).
    constructor; [|exact Ht].
    rewrite in_map_iff. intros (b & Eb & Hb).
    apply (Hother b); [now right | | exact Eb].
    apply has_pk_false. intros Hbk. apply Hk, in_pks. now exists b.
  - constructor.
    + rewrite in_map_iff. intros (b & Eb & Hb).
      apply in_overwritten in Hb. destruct Hb as [->|[Hb _]].
      * apply (Hother r); [now left | exact E | now symmetry].
      * apply Hr, in_map_iff. now exists b.
    + apply IH; [exact Hpkt | exact Ht |].
      intros b Hb. apply Hother. now right.
Qed.

Lemma appended_NoDup {K : Type} (f : R -> K) (row : R) (table : list R) :
  NoDup (map f table) -> (forall b, In b table -> f b <> f row) ->
  NoDup (map f (table ++ [row])).
Proof.
  intros Hf Hother. rewrite map_app. simpl.
  apply NoDup_app; [exact Hf | repeat constructor; intros [] |].
  intros x Hx [<-|[]]. apply in_map_iff in Hx.
  destruct Hx as (b & Eb & Hb). now apply (Hother b).
Qed.

Variable violation : option Z -> R -> option DbError.

Lemma save_base_Done table self now self' table' :
  save_base violation table self now = (Done, self', table') ->
  updated violation table self now self' table' \/
  inserted_with_key violation table self now self' table' \/
  inserted violation table self now self' table'.
Proof.
  unfold save_base. destruct (pk self) as [k|] eqn:Ek.
  - destruct (exists_pk k table) eqn:Ex.
    + destruct (violation (Some k) (pre_save false now self)) eqn:Ev;
        intros E; inversion E; subst.
      left. exists k. repeat split; auto.
    + destruct (violation None (pre_save true now (pre_save false now self))) eqn:Ev;
        intros E; inversion E; subst.
      right. left. exists k. repeat split; auto.
  - destruct (violation None (pre_save true now self)) eqn:Ev;
      intros E; inversion E; subst.
    right. right. repeat split; auto.
Qed.

Lemma save_base_Raised table self now e self' table' :
  save_base violation table self now = (Raised e, self', table') ->
  table' = table.
Proof.
  unfold save_base. destruct (pk self) as [k|].
  - destruct (exists_pk k table).
    + destruct (violation (Some k) _); intros E; inversion E; reflexivity.
    + destruct (violation None _); intros E; inversion E; reflexivity.
  - destruct (violation None _); intros E; inversion E; reflexivity.
Qed.

(** A saved instance has a key and its row is in the table. *)
Lemma save_base_stored table self now self' table' :
  save_base violation table self now = (Done, self', table') ->
  In self' table' /\ exists k, pk self' = Some k.
Proof.
  intros E. apply save_base_Done in E.
  destruct E as [(k & Hk & Hex & -> & _ & ->)|[(k & Hk & _ & -> & _ & ->)|(_ & _ & -> & ->)]].
  - split; [now apply overwritten_in|]. exists k. now rewrite pk_pre_save.
  - split; [apply in_or_app; right; now left|].
    exists k. now rewrite !pk_pre_save.
  - split; [apply in_or_app; right; now left|].
    eexists. apply pk_with_pk.
Qed.

(** Primary keys stay distinct. *)
Lemma save_base_keys table self now o self' table' :
  save_base violation table self now = (o, self', table') ->
  NoDup (pks table) -> NoDup (pks table').
Proof.
  intros E Hnd. destruct o as [|e].
  - apply save_base_Done in E.
    destruct E as [(k & Hk & Hex & -> & _ & ->)|[(k & Hk & Hex & -> & _ & ->)|(_ & _ & -> & ->)]].
    + rewrite pks_overwritten; [exact Hnd|]. now rewrite pk_pre_save.
    + rewrite pks_app. apply NoDup_app; [exact Hnd | |].
      * unfold pks. simpl. rewrite !pk_pre_save, Hk. repeat constructor. intros [].
      * intros j Hj Hj'. unfold pks in Hj'. simpl in Hj'.
        rewrite !pk_pre_save, Hk in Hj'. destruct Hj' as [<-|[]].
        now apply exists_pk_false in Hex.
    + rewrite pks_app. apply NoDup_app; [exact Hnd | |].
      * unfold pks. simpl. rewrite pk_with_pk. repeat constructor. intros [].
      * intros j Hj Hj'. unfold pks in Hj'. simpl in Hj'.
        rewrite pk_with_pk in Hj'. destruct Hj' as [<-|[]].
        now apply next_pk_fresh in Hj.
  - apply save_base_Raised in E. now subst.
Qed.
End TableFacts.

(** The three cases of a completed save: UPDATE, INSERT with the key of
    the instance, INSERT with a fresh key. *)
Ltac completed_save E k :=
  apply save_base_Done in E;
  destruct E as [(k & Hk & Hex & Hs & Hv & Ht)
                |[(k & Hk & Hex & Hs & Hv & Ht)
                 |(Hk & Hv & Hs & Ht)]].

(** ** Article.save *)

Lemma Article_violation_slug (db : Database) (own : option Z) (a b : Article.t) :
  Article_violation db own a = None ->
  In b (articles db) -> is_own own b = false ->
  Article.slug b <> Article.slug a.
Proof.
  unfold Article_violation.
  destruct (existsb _ (articles db)) eqn:E; [discriminate|].
  intros _ Hb Hown Heq.
  apply existsb_false with (x := b) in E; [|exact Hb].
  rewrite Heq, String.eqb_refl, Hown in E. discriminate.
Qed.

Lemma Article_violation_None (db : Database) (a : Article.t) :
  (forall b, In b (articles db) -> Article.slug b <> Article.slug a) ->
  user_exists db (Article.author a) = true ->
  optional_user_exists db (Article.updater a) = true ->
  exists_pk (Article.category a) (categories db) = true ->
  Article_violation db None a = None.
Proof.
  intros Hslug Hauthor Hupdater Hcat. unfold Article_violation.
  rewrite false_existsb.
  - now rewrite Hauthor, Hupdater, Hcat.
  - intros b Hb. apply andb_false_iff. left.
    apply String.eqb_neq. now apply Hslug.
Qed.

Lemma Article_super_save_inv db self now o self' db' :
  Article_super_save db self now = (o, self', db') ->
  save_base (Article_violation db) (articles db) self now = (o, self', articles db') /\
  db' = set_articles (articles db') db.
Proof.
  unfold Article_super_save.
  destruct (save_base _ _ _ _) as [[o1 s1] t1].
  intros E. inversion E; subst. now split.
Qed.

(** Whatever the outcome, [super().save] leaves the caller's fields of
    the instance alone, keeps a key that was set, and stamps
    [time_update]. *)
Lemma Article_super_save_fields db self now o self' db' :
  Article_super_save db self now = (o, self', db') ->
  same_given_fields self self' /\
  Article.time_update self' = now /\
  (forall k, Article.id self = Some k -> Article.id self' = Some k).
Proof.
  intros E. apply Article_super_save_inv in E. destruct E as [E _].
  unfold save_base in E. simpl in E.
  destruct (Article.id self) as [k|] eqn:Ek.
  - destruct (exists_pk k (articles db)).
    + destruct (Article_violation db (Some k) _); inversion E; subst;
        (split; [repeat split | split; [reflexivity | intros j Hj; simpl; congruence]]).
    + destruct (Article_violation db None _); inversion E; subst;
        (split; [repeat split | split; [reflexivity | intros j Hj; simpl; congruence]]).
  - destruct (Article_violation db None _); inversion E; subst;
      (split; [repeat split | split; [reflexivity | intros j Hj; discriminate]]).
Qed.

(** A successful [super().save] leaves no other row with the slug of the
    saved one, and keeps keys and slugs of the table distinct. *)
Lemma Article_super_save_unique db self now self' db' :
  Article_super_save db self now = (Done, self', db') ->
  In self' (articles db') /\
  (forall b, In b (articles db') -> Article.id b <> Article.id self' ->
             Article.slug b <> Article.slug self') /\
  (NoDup (pks (articles db)) -> NoDup (map Article.slug (articles db)) ->
   NoDup (pks (articles db')) /\ NoDup (map Article.slug (articles db'))).
Proof.
  intros E. apply Article_super_save_inv in E. destruct E as [E _].
  split; [now apply (save_base_stored _ _ _ _ _ _ E)|].
  pose proof (save_base_keys _ _ _ _ _ _ _ E) as Hkeys.
  completed_save E k.
  - assert (Hid : Article.id self' = Some k) by (rewrite Hs; exact Hk).
    split.
    + intros b Hb Hne. rewrite Ht in Hb. apply in_overwritten in Hb.
      destruct Hb as [->|[Hb Hown]]; [congruence|].
      now apply (Article_violation_slug db (Some k)).
    + intros Hpk Hslug. split; [now apply Hkeys|]. rewrite Ht.
      apply overwritten_NoDup; [exact Hpk | exact Hslug |].
      intros b Hb Hown. now apply (Article_violation_slug db (Some k)).
  - split.
    + intros b Hb Hne. rewrite Ht in Hb. apply in_app_or in Hb.
      destruct Hb as [Hb|[<-|[]]]; [|congruence].
      now apply (Article_violation_slug db None).
    + intros Hpk Hslug. split; [now apply Hkeys|]. rewrite Ht.
      apply appended_NoDup; [exact Hslug|].
      intros b Hb. now apply (Article_violation_slug db None).
  - assert (Hrow : forall b, In b (articles db) -> Article.slug b <> Article.slug self').
    { intros b Hb. rewrite Hs.
      now apply (Article_violation_slug db None (pre_save true now self)). }
    split.
    + intros b Hb Hne. rewrite Ht in Hb. apply in_app_or in Hb.
      destruct Hb as [Hb|[<-|[]]]; [now apply Hrow | congruence].
    + intros Hpk Hslug. split; [now apply Hkeys|]. rewrite Ht.
      now apply appended_NoDup.
Qed.








(** ** Defaults *)

Lemma Comment_save_inv db self now o self' db' :
  Comment_save db self now = (o, self', db') ->
  save_base (Comment_violation db) (comments db) self now = (o, self', comments db').
Proof.
  unfold Comment_save.
  destruct (save_base _ _ _ _) as [[o1 s1] t1].
  intros E. now inversion E; subst.
Qed.

Lemma Comment_save_status db self now o self' db' :
  Comment_save db self now = (o, self', db') ->
  Comment.status self' = Comment.status self.
Proof.
  intros E. apply Comment_save_inv in E.
  unfold save_base in E. simpl in E.
  destruct (Comment.id self) as [k|].
  - destruct (exists_pk k (comments db)).
    + destruct (Comment_violation db (Some k) _); now inversion E.
    + destruct (Comment_violation db None _); now inversion E.
  - destruct (Comment_violation db None _); now inversion E.
Qed.

Lemma published_in_policies (db : Database) (a : Article.t) :
  In a (articles db) -> Article.status a = "published" ->
  In a (fetch db ArticleManager_all) /\ In a (fetch db ArticleManager_detail).
Proof.
  intros Ha Hs.
  assert (Hf : In a (filter is_published (articles db))).
  { apply filter_In. split; [exact Ha|]. unfold is_published.
    rewrite Hs. reflexivity. }
  split.
  - eapply Permutation_in; [apply Permutation_sym, fetch_all_perm | exact Hf].
  - eapply Permutation_in; [apply Permutation_sym, fetch_detail_perm | exact Hf].
Qed.

(** C10.  An article created without a status argument has status
    'published', and once the creation completes its row is in the
    answers of [all] and [detail].  A comment constructed without a
    status argument has status 'published', also after it is saved, and
    is then a stored row. *)
Theorem status_defaults_to_published :
  (forall unique_slugify db kw now self' db',
      kw_status kw = None ->
      Article_create unique_slugify db kw now = (Done, self', db') ->
      Article.status self' = "published" /\
      In self' (articles db') /\
      In self' (fetch db' ArticleManager_all) /\
      In self' (fetch db' ArticleManager_detail)) /\
  (forall db kw now,
      ckw_status kw = None ->
      Comment.status (Comment_init kw) = "published" /\
      forall o self' db',
        Comment_create db kw now = (o, self', db') ->
        Comment.status self' = "published" /\
        (o = Done -> In self' (comments db'))).
Proof.
  split.
  - intros f db kw now self' db' Hkw E.
    unfold Article_create, Article_save in E.
    pose proof (Article_super_save_fields _ _ _ _ _ _ E) as (Hf & _ & _).
    destruct Hf as (_ & _ & _ & _ & _ & Hstatus & _).
    pose proof (Article_super_save_unique _ _ _ _ _ E) as (Hin & _).
    assert (Hs : Article.status self' = "published").
    { rewrite <- Hstatus.
      destruct (String.eqb _ ""); simpl; now rewrite Hkw. }
    split; [exact Hs|]. split; [exact Hin|].
    now apply published_in_policies.
  - intros db kw now Hkw.
    assert (Hinit : Comment.status (Comment_init kw) = "published")
      by (simpl; now rewrite Hkw).
    split; [exact Hinit|].
    intros o self' db' E. unfold Comment_create in E. split.
    + rewrite (Comment_save_status _ _ _ _ _ _ E). exact Hinit.
    + intros ->. apply Comment_save_inv in E.
      now apply (save_base_stored _ _ _ _ _ _ E).
Qed.

(** The defaults at work: an article and a comment created without a
    status in [hello_db]. *)
Lemma status_defaults_to_published_witness :
  (exists self' db',
      Article_create suffix_slugify hello_db news_kwargs 7 = (Done, self', db') /\
      Article.status self' = "published" /\
      In self' (fetch db' ArticleManager_all) /\
      In self' (fetch db' ArticleManager_detail)) /\
  (exists self' db',
      Comment_create hello_db first_comment_kwargs 8 = (Done, self', db') /\
      Comment.status self' = "published" /\ In self' (comments db')).
Proof.
  destruct status_defaults_to_published as [HA HC]. split.
  - eexists. eexists. split; [reflexivity|].
    destruct (HA suffix_slugify hello_db news_kwargs 7 _ _ eq_refl eq_refl)
      as (Hs & _ & Hall & Hdetail).
    split; [exact Hs|]. split; [exact Hall | exact Hdetail].
  - eexists. eexists. split; [reflexivity|].
    destruct (HC hello_db first_comment_kwargs 8 eq_refl) as [_ H].
    destruct (H _ _ _ eq_refl) as [Hs Hin].
    split; [exact Hs | exact (Hin eq_refl)].
Defined.

(** ** Ratings: one per article and address *)

Lemma set_ratings_same (db : Database) : set_ratings (ratings db) db = db.
Proof. now destruct db. Qed.

Lemma Rating_save_inv db self now o self' db' :
  Rating_save db self now = (o, self', db') ->
  save_base (Rating_violation db) (ratings db) self now = (o, self', ratings db') /\
  db' = set_ratings (ratings db') db.
Proof.
  unfold Rating_save.
  destruct (save_base _ _ _ _) as [[o1 s1] t1].
  intros E. inversion E; subst. now split.
Qed.

Lemma Rating_violation_key (db : Database) (own : option Z) (r q : Rating.t) :
  Rating_violation db own r = None ->
  In q (ratings db) -> is_own own q = false ->
  Rating_key q <> Rating_key r.
Proof.
  unfold Rating_violation.
  destruct (existsb _ (ratings db)) eqn:E; [discriminate|].
  intros _ Hq Hown Heq. unfold Rating_key in Heq. injection Heq as Ha Hi.
  apply existsb_false with (x := q) in E; [|exact Hq].
  rewrite Ha, Hi, Z.eqb_refl, String.eqb_refl, Hown in E. discriminate.
Qed.

Lemma Rating_violation_duplicate (db : Database) (r q : Rating.t) :
  In q (ratings db) -> Rating_key q = Rating_key r ->
  Rating_violation db None r = Some (UniqueViolation ["article"; "ip_address"]).
Proof.
  intros Hq Heq. unfold Rating_key in Heq. injection Heq as Ha Hi.
  unfold Rating_violation.
  replace (existsb _ (ratings db)) with true; [reflexivity|].
  symmetry. apply existsb_exists. exists q. split; [exact Hq|].
  now rewrite Ha, Hi, Z.eqb_refl, String.eqb_refl.
Qed.

Lemma Rating_violation_None (db : Database) (r : Rating.t) :
  (forall q, In q (ratings db) -> Rating_key q <> Rating_key r) ->
  exists_pk (Rating.article r) (articles db) = true ->
  optional_user_exists db (Rating.user r) = true ->
  Rating_violation db None r = None.
Proof.
  intros Hkey Harticle Huser. unfold Rating_violation.
  rewrite false_existsb.
  - now rewrite Harticle, Huser.
  - intros q Hq.
    destruct (Rating.article q =? Rating.article r) eqn:Ea; [|reflexivity].
    destruct (String.eqb (Rating.ip_address q) (Rating.ip_address r)) eqn:Ei;
      [|reflexivity].
    exfalso. apply (Hkey q Hq). unfold Rating_key.
    apply Z.eqb_eq in Ea. apply String.eqb_eq in Ei. congruence.
Qed.

(** Saving a rating keeps keys and (article, ip_address) pairs of the
    table pairwise distinct. *)
Lemma Rating_save_unique_together db self now o self' db' :
  Rating_save db self now = (o, self', db') ->
  NoDup (pks (ratings db)) -> NoDup (map Rating_key (ratings db)) ->
  NoDup (pks (ratings db')) /\ NoDup (map Rating_key (ratings db')).
Proof.
  intros E Hpk Hkey. apply Rating_save_inv in E. destruct E as [E _].
  split; [now apply (save_base_keys _ _ _ _ _ _ _ E)|].
  destruct o as [|e].
  - completed_save E k; rewrite Ht.
    + apply overwritten_NoDup; [exact Hpk | exact Hkey |].
      intros q Hq Hown. now apply (Rating_violation_key db (Some k)).
    + apply appended_NoDup; [exact Hkey|].
      intros q Hq. now apply (Rating_violation_key db None).
    + apply appended_NoDup; [exact Hkey|].
      intros q Hq. rewrite Hs.
      now apply (Rating_violation_key db None (pre_save true now self)).
  - apply save_base_Raised in E. now rewrite E.
Qed.

(** C4.  Saving ratings keeps at most one row per (article, ip_address)
    pair.  A new rating whose pair is already stored is refused with the
    violation of the unique constraint and the stored state is left as it
    was; a new rating for a pair not yet stored, on a stored article and
    from a known or anonymous user, is stored as the last row. *)
Theorem Rating_unique_per_article_and_address :
  (forall db self now o self' db',
      Rating_save db self now = (o, self', db') ->
      NoDup (pks (ratings db)) -> NoDup (map Rating_key (ratings db)) ->
      NoDup (pks (ratings db')) /\ NoDup (map Rating_key (ratings db'))) /\
  (forall db self now,
      Rating.id self = None ->
      (forall q, In q (ratings db) ->
                 Rating.article q = Rating.article self ->
                 Rating.ip_address q = Rating.ip_address self ->
                 exists self',
                   Rating_save db self now =
                   (Raised (UniqueViolation ["article"; "ip_address"]), self', db)) /\
      ((forall q, In q (ratings db) -> Rating_key q <> Rating_key self) ->
       exists_pk (Rating.article self) (articles db) = true ->
       optional_user_exists db (Rating.user self) = true ->
       exists self',
         Rating_save db self now =
         (Done, self', set_ratings (ratings db ++ [self']) db) /\
         Rating_key self' = Rating_key self /\
         Rating.value self' = Rating.value self)).
Proof.
  split; [exact Rating_save_unique_together|].
  intros db self now Hnew. split.
  - intros q Hq Ha Hi.
    assert (Hkey : Rating_key q = Rating_key self)
      by (unfold Rating_key; congruence).
    unfold Rating_save, save_base. simpl. rewrite Hnew.
    rewrite (Rating_violation_duplicate db (Rating.with_time_create now self) q Hq Hkey).
    rewrite set_ratings_same. eexists. reflexivity.
  - intros Hfresh Harticle Huser.
    unfold Rating_save, save_base. simpl. rewrite Hnew.
    rewrite (Rating_violation_None db (Rating.with_time_create now self));
      [|exact Hfresh | exact Harticle | exact Huser].
    eexists. split; [reflexivity|]. split; reflexivity.
Qed.

(** Two ratings with value 1 from 1.2.3.4 on the same article: the first
    is stored, the second is refused and changes nothing. *)
Lemma Rating_unique_per_article_and_address_witness :
  (exists self',
      Rating_save hello_db (like_from "1.2.3.4") 10 = (Done, self', liked_once_db)) /\
  (exists self',
      Rating_save liked_once_db (like_from "1.2.3.4") 11 =
      (Raised (UniqueViolation ["article"; "ip_address"]), self', liked_once_db)) /\
  NoDup (map Rating_key (ratings liked_once_db)).
Proof.
  destruct Rating_unique_per_article_and_address as [Hinv Hnew].
  split; [|split].
  - destruct (Hnew hello_db (like_from "1.2.3.4") 10 eq_refl) as [_ Hfirst].
    destruct Hfirst as (self' & E & _).
    + intros q [].
    + reflexivity.
    + reflexivity.
    + exists self'. unfold liked_once_db, after_rating. rewrite E. reflexivity.
  - destruct (Hnew liked_once_db (like_from "1.2.3.4") 11 eq_refl) as [Hsecond _].
    apply (Hsecond (Rating.with_id 1 (Rating.with_time_create 10 (like_from "1.2.3.4")))).
    + now left.
    + reflexivity.
    + reflexivity.
  - apply (Hinv hello_db (like_from "1.2.3.4") 10 Done
             (Rating.with_id 1 (Rating.with_time_create 10 (like_from "1.2.3.4")))
             liked_once_db eq_refl); constructor.
Defined.

(** ** The aggregate rating *)

Lemma sum_fold_right (l : list Z) : sum l = fold_right Z.add 0 l.
Proof.
  unfold sum. apply fold_symmetric; intros; lia.
Qed.

Lemma fold_right_add_perm (l l' : list Z) :
  Permutation l l' -> fold_right Z.add 0 l = fold_right Z.add 0 l'.
Proof.
  induction 1; simpl; lia.
Qed.

Lemma fold_right_add_app (l l' : list Z) :
  fold_right Z.add 0 (l ++ l') = fold_right Z.add 0 l + fold_right Z.add 0 l'.
Proof.
  induction l as [|x l IH]; simpl; lia.
Qed.

(** The related manager reads the stored ratings of the article, each
    as often as it is stored. *)
Lemma ratings_of_perm (db : Database) (k : Z) :
  Permutation (ratings_of db k)
    (filter (fun r => Rating.article r =? k) (ratings db)).
Proof.
  unfold ratings_of. apply Permutation_sym, order_by_perm.
Qed.

(** The order in which the ratings are read does not matter. *)
Lemma sum_ratings_of (db : Database) (k : Z) :
  sum (map Rating.value (ratings_of db k)) =
  fold_right Z.add 0
    (map Rating.value (filter (fun r => Rating.article r =? k) (ratings db))).
Proof.
  rewrite sum_fold_right.
  apply fold_right_add_perm, Permutation_map, ratings_of_perm.
Qed.

Lemma get_sum_rating_unfetched (db : Database) (a : Article.t) (k : Z) :
  Article.id a = Some k ->
  get_sum_rating db (unfetched a) =
  Result (fold_right Z.add 0
            (map Rating.value
               (filter (fun r => Rating.article r =? k) (ratings db)))).
Proof.
  intros Hk. unfold get_sum_rating, Article_ratings_all, unfetched. simpl.
  rewrite Hk. now rewrite sum_ratings_of.
Qed.

(** What a query set that prefetches 'ratings' puts on its objects. *)
Lemma fetch_instances_prefetched (db : Database) (qs : QuerySet)
    (self : ArticleInstance) :
  existsb (String.eqb "ratings") (qs_prefetch_related qs) = true ->
  In self (fetch_instances db qs) ->
  In (fields self) (fetch db qs) /\
  prefetched_ratings self =
  Some (match Article.id (fields self) with
        | Some k => ratings_of db k
        | None => []
        end).
Proof.
  intros Hp Hin. unfold fetch_instances in Hin. rewrite Hp in Hin.
  apply in_map_iff in Hin. destruct Hin as (a & <- & Ha). now split.
Qed.

Lemma ArticleManager_prefetches_ratings (qs : QuerySet) :
  qs = ArticleManager_all \/ qs = ArticleManager_detail ->
  existsb (String.eqb "ratings") (qs_prefetch_related qs) = true.
Proof.
  intros [-> | ->]; reflexivity.
Qed.

(** An object loaded by one of the two policies answers from the
    ratings stored when it was loaded, whatever is stored at the time of
    the call. *)
Lemma Article_ratings_all_prefetched (db later : Database) (qs : QuerySet)
    (self : ArticleInstance) (k : Z) :
  qs = ArticleManager_all \/ qs = ArticleManager_detail ->
  In self (fetch_instances db qs) ->
  Article.id (fields self) = Some k ->
  Article_ratings_all later self = Result (ratings_of db k).
Proof.
  intros Hqs Hin Hk.
  destruct (fetch_instances_prefetched db qs self
              (ArticleManager_prefetches_ratings qs Hqs) Hin) as [_ Hc].
  unfold Article_ratings_all. now rewrite Hk, Hc, Hk.
Qed.

Lemma get_sum_rating_prefetched (db later : Database) (qs : QuerySet)
    (self : ArticleInstance) (k : Z) :
  qs = ArticleManager_all \/ qs = ArticleManager_detail ->
  In self (fetch_instances db qs) ->
  Article.id (fields self) = Some k ->
  get_sum_rating later self =
  Result (fold_right Z.add 0
            (map Rating.value
               (filter (fun r => Rating.article r =? k) (ratings db)))).
Proof.
  intros Hqs Hin Hk. unfold get_sum_rating.
  rewrite (Article_ratings_all_prefetched db later qs self k Hqs Hin Hk).
  now rewrite sum_ratings_of.
Qed.

Lemma get_sum_rating_of_read (db : Database) (self : ArticleInstance)
    (rated : list Rating.t) :
  Article_ratings_all db self = Result rated ->
  get_sum_rating db self = Result (fold_right Z.add 0 (map Rating.value rated)).
Proof.
  intros E. unfold get_sum_rating. now rewrite E, sum_fold_right.
Qed.

Lemma get_sum_rating_without_key (db : Database) (self : ArticleInstance) :
  Article.id (fields self) = None -> get_sum_rating db self = ValueError.
Proof.
  intros Hk. unfold get_sum_rating, Article_ratings_all. now rewrite Hk.
Qed.

Lemma likes_minus_dislikes (rs : list Rating.t) :
  Forall (fun r => Rating.value r = 1 \/ Rating.value r = -1) rs ->
  fold_right Z.add 0 (map Rating.value rs) =
  Z.of_nat (List.length (filter (fun r => Rating.value r =? 1) rs)) -
  Z.of_nat (List.length (filter (fun r => Rating.value r =? -1) rs)).
Proof.
  induction 1 as [|r rs Hr _ IH]; [reflexivity|].
  cbn [map fold_right filter]. rewrite IH.
  destruct Hr as [Hr|Hr]; rewrite Hr;
    [change (1 =? 1) with true; change (1 =? -1) with false
    |change (-1 =? 1) with false; change (-1 =? -1) with true];
    cbn [List.length]; rewrite ?Nat2Z.inj_succ; lia.
Qed.

Lemma Rating_inserted_row db self now self' db' :
  Rating_save db self now = (Done, self', db') -> Rating.id self = None ->
  ratings db' = ratings db ++ [self'] /\
  Rating.article self' = Rating.article self /\
  Rating.value self' = Rating.value self.
Proof.
  intros E Hnew. apply Rating_save_inv in E. destruct E as [E _].
  apply save_base_Done in E.
  destruct E as [(k & Hk & _)|[(k & Hk & _)|(_ & _ & Hs & Ht)]].
  - simpl in Hk. congruence.
  - simpl in Hk. congruence.
  - rewrite Hs at 2 3. now split.
Qed.

(** C5, as stated, fails for the objects the manager of Article loads:
    both policies prefetch the ratings, and [get_sum_rating] then sums
    the prefetched ones.  Article 2 is loaded by [ArticleManager.all]
    from [two_article_db], where it has no rating; then a like for it is
    stored.  The stored values of the article sum to 1, the object still
    reports 0. *)
Lemma get_sum_rating_of_listed_article_misses_later_rating :
  In second_as_listed (fetch_instances two_article_db ArticleManager_all) /\
  exists r' db',
    Rating_save two_article_db (like_second_from "1.2.3.4") 10 = (Done, r', db') /\
    filter (fun r => Rating.article r =? 2) (ratings db') = [r'] /\
    Rating.value r' = 1 /\
    get_sum_rating db' second_as_listed = Result 0.
Proof.
  split.
  - left. reflexivity.
  - eexists. eexists. split; [reflexivity|].
    split; [reflexivity|]. split; reflexivity.
Qed.

(** C5, amended.  [get_sum_rating] is the sum of the values of the
    ratings that [self.ratings.all()] answers with: the number of likes
    minus the number of dislikes when the values are +1 and -1, 1 for
    the values +1, +1, -1 and 0 without ratings.  For an object with a
    key that carries no prefetched ratings these are the ratings stored
    for the article at the time of the call, in any order: once a new
    rating is stored, the sum has moved by its value if it rates this
    article and not at all otherwise.  For an object loaded by
    [ArticleManager.all] or [ArticleManager.detail] they are the ratings
    that were stored for the article when the object was loaded,
    whatever is stored at the time of the call.  On an object without
    key the call raises ValueError. *)
Theorem get_sum_rating_sums_ratings_read :
  (forall db self rated,
      Article_ratings_all db self = Result rated ->
      get_sum_rating db self =
        Result (fold_right Z.add 0 (map Rating.value rated)) /\
      (Forall (fun r => Rating.value r = 1 \/ Rating.value r = -1) rated ->
       get_sum_rating db self =
       Result (Z.of_nat (List.length (filter (fun r => Rating.value r =? 1) rated)) -
               Z.of_nat (List.length (filter (fun r => Rating.value r =? -1) rated)))) /\
      (Permutation (map Rating.value rated) [1; 1; -1] ->
       get_sum_rating db self = Result 1) /\
      (rated = [] -> get_sum_rating db self = Result 0)) /\
  (forall db a k,
      Article.id a = Some k ->
      (exists rated,
          Article_ratings_all db (unfetched a) = Result rated /\
          Permutation rated
            (filter (fun r => Rating.article r =? k) (ratings db))) /\
      get_sum_rating db (unfetched a) =
      Result (fold_right Z.add 0
                (map Rating.value
                   (filter (fun r => Rating.article r =? k) (ratings db))))) /\
  (forall db a k r now r' db',
      Article.id a = Some k ->
      Rating.id r = None ->
      Rating_save db r now = (Done, r', db') ->
      exists before,
        get_sum_rating db (unfetched a) = Result before /\
        get_sum_rating db' (unfetched a) =
        Result (before + (if Rating.article r =? k then Rating.value r else 0))) /\
  (forall db qs self k later,
      qs = ArticleManager_all \/ qs = ArticleManager_detail ->
      In self (fetch_instances db qs) ->
      Article.id (fields self) = Some k ->
      (exists rated,
          Article_ratings_all later self = Result rated /\
          Permutation rated
            (filter (fun r => Rating.article r =? k) (ratings db))) /\
      get_sum_rating later self =
      Result (fold_right Z.add 0
                (map Rating.value
                   (filter (fun r => Rating.article r =? k) (ratings db))))) /\
  (forall db self,
      Article.id (fields self) = None -> get_sum_rating db self = ValueError).
Proof.
  split; [|split; [|split; [|split]]].
  - intros db self rated E.
    pose proof (get_sum_rating_of_read db self rated E) as Hsum.
    split; [exact Hsum|]. rewrite Hsum. split; [|split].
    + intros Hv. f_equal. now apply likes_minus_dislikes.
    + intros Hp. f_equal. now rewrite (fold_right_add_perm _ _ Hp).
    + now intros ->.
  - intros db a k Hk. split; [|now apply get_sum_rating_unfetched].
    exists (ratings_of db k). split; [|apply ratings_of_perm].
    unfold Article_ratings_all, unfetched. simpl. now rewrite Hk.
  - intros db a k r now r' db' Hk Hnew E.
    destruct (Rating_inserted_row _ _ _ _ _ E Hnew) as (Ht & Ha & Hv).
    eexists. split; [exact (get_sum_rating_unfetched db a k Hk)|].
    rewrite (get_sum_rating_unfetched db' a k Hk).
    rewrite Ht, filter_app, map_app, fold_right_add_app.
    f_equal. f_equal. cbn [filter]. rewrite Ha.
    destruct (Rating.article r =? k); simpl; lia.
  - intros db qs self k later Hqs Hin Hk.
    split; [|now apply (get_sum_rating_prefetched db later qs)].
    exists (ratings_of db k). split; [|apply ratings_of_perm].
    now apply (Article_ratings_all_prefetched db later qs).
  - exact get_sum_rating_without_key.
Qed.

(** The article of [hello_db], read through an object without prefetched
    ratings, before any rating and after a like, a like and a dislike
    from three addresses; and article 2 of [two_article_db] as
    [ArticleManager.all] loads it while it has no rating. *)
Lemma get_sum_rating_sums_ratings_read_witness :
  get_sum_rating hello_db (unfetched hello_article) = Result 0 /\
  get_sum_rating rated_thrice_db (unfetched hello_article) = Result 1 /\
  (exists before,
      get_sum_rating hello_db (unfetched hello_article) = Result before /\
      get_sum_rating liked_once_db (unfetched hello_article) =
      Result (before + (if Rating.article (like_from "1.2.3.4") =? 1
                        then Rating.value (like_from "1.2.3.4") else 0))) /\
  get_sum_rating rated_thrice_db second_as_listed = Result 0 /\
  get_sum_rating hello_db (unfetched unslugged_article) = ValueError.
Proof.
  destruct get_sum_rating_sums_ratings_read
    as (Hread & Hstored & Hnew & Hloaded & Hnokey).
  split; [|split; [|split; [|split]]].
  - apply (proj2 (Hstored hello_db hello_article 1 eq_refl)).
  - destruct (Hread rated_thrice_db (unfetched hello_article)
                (ratings_of rated_thrice_db 1) eq_refl) as (_ & _ & Hexample & _).
    apply Hexample. vm_compute. apply (Permutation_app_comm [-1] [1; 1]).
  - apply (Hnew hello_db hello_article 1 (like_from "1.2.3.4") 10
             (Rating.with_id 1 (Rating.with_time_create 10 (like_from "1.2.3.4")))
             liked_once_db eq_refl eq_refl eq_refl).
  - assert (Hin : In second_as_listed
                     (fetch_instances two_article_db ArticleManager_all))
      by (left; reflexivity).
    apply (proj2 (Hloaded two_article_db ArticleManager_all second_as_listed 2
                    rated_thrice_db (or_introl eq_refl) Hin eq_refl)).
  - apply Hnokey. reflexivity.
Defined.

(** ** The collector *)

Lemma filter_weaker_length {A : Type} (f g : A -> bool) (l : list A) :
  (forall x, In x l -> f x = true -> g x = true) ->
  (List.length (filter f l) <= List.length (filter g l))%nat.
Proof.
  induction l as [|x l IH]; simpl; intros Himp; [lia|].
  assert (IH' := IH (fun y Hy => Himp y (or_intror Hy))).
  destruct (f x) eqn:Ef.
  - rewrite (Himp x (or_introl eq_refl) Ef). simpl. lia.
  - destruct (g x); simpl; lia.
Qed.

Lemma filter_weaker_length_lt {A : Type} (f g : A -> bool) (l : list A) (x : A) :
  (forall y, In y l -> f y = true -> g y = true) ->
  In x l -> f x = false -> g x = true ->
  (List.length (filter f l) < List.length (filter g l))%nat.
Proof.
  induction l as [|y l IH]; simpl; intros Himp Hx Hf Hg; [contradiction|].
  assert (Himp' : forall z, In z l -> f z = true -> g z = true)
    by (intros z Hz; apply Himp; now right).
  destruct Hx as [->|Hx].
  - rewrite Hf, Hg. simpl.
    pose proof (filter_weaker_length f g l Himp'). lia.
  - specialize (IH Himp' Hx Hf Hg).
    destruct (f y) eqn:Ef.
    + rewrite (Himp y (or_introl eq_refl) Ef). simpl. lia.
    + destruct (g y); simpl; lia.
Qed.

Section CollectFacts.
Context {R : Type} `{L : ModelLaws R}.
Variable parent : R -> option Z.
Variable table : list R.

Lemma in_reached_next (seen : list Z) (k : Z) :
  In k (reached_next parent table seen) <->
  exists r p, In r table /\ pk r = Some k /\ parent r = Some p /\
              In p seen /\ ~ In k seen.
Proof.
  unfold reached_next. rewrite in_pks. split.
  - intros (r & Hr & Hk). apply filter_In in Hr. destruct Hr as [Hr Hf].
    apply andb_true_iff in Hf. destruct Hf as [Hc Hn].
    unfold child_of in Hc. destruct (parent r) as [p|] eqn:Ep; [|discriminate].
    exists r, p. repeat split; auto.
    + now apply is_in_In.
    + intros Hin. unfold pk_in in Hn. rewrite Hk in Hn.
      apply is_in_In in Hin. rewrite Hin in Hn. discriminate.
  - intros (r & p & Hr & Hk & Hp & Hin & Hout).
    exists r. split; [|exact Hk]. apply filter_In. split; [exact Hr|].
    apply andb_true_iff. split.
    + unfold child_of. rewrite Hp. now apply is_in_In.
    + unfold pk_in. rewrite Hk. apply negb_true_iff.
      destruct (is_in k seen) eqn:E; [|reflexivity].
      apply is_in_In in E. contradiction.
Qed.

Lemma cascade_grows (rounds : nat) (seen : list Z) (k : Z) :
  In k seen -> In k (cascade parent rounds table seen).
Proof.
  revert seen. induction rounds as [|n IH]; simpl; intros seen Hk; [exact Hk|].
  destruct (reached_next parent table seen) as [|j more]; [exact Hk|].
  apply IH, in_or_app. now left.
Qed.

(** Only seeds and rows below them are collected. *)
Lemma cascade_sound (seeds : list Z) (rounds : nat) (seen : list Z) :
  (forall k, In k seen -> reaches parent table seeds k) ->
  forall k, In k (cascade parent rounds table seen) -> reaches parent table seeds k.
Proof.
  revert seen. induction rounds as [|n IH]; simpl; intros seen Hseen; [exact Hseen|].
  destruct (reached_next parent table seen) as [|j more] eqn:E; [exact Hseen|].
  apply IH. intros k Hk. apply in_app_or in Hk. destruct Hk as [Hk|Hk].
  - now apply Hseen.
  - rewrite <- E in Hk. apply in_reached_next in Hk.
    destruct Hk as (r & p & Hr & Hpk & Hp & Hin & _).
    apply (reaches_child parent table seeds r k p); auto.
Qed.

Lemma unseen_shrinks (seen : list Z) (j : Z) (more : list Z) :
  reached_next parent table seen = j :: more ->
  (List.length (unseen table (seen ++ j :: more)) <
   List.length (unseen table seen))%nat.
Proof.
  intros E.
  assert (Hj : In j (reached_next parent table seen)) by (rewrite E; now left).
  apply in_reached_next in Hj. destruct Hj as (r & p & Hr & Hk & _ & _ & Hout).
  unfold unseen. apply filter_weaker_length_lt with (x := r).
  - intros y _. destruct (pk y) as [k|]; [|discriminate].
    rewrite !negb_true_iff. intros Hy.
    destruct (is_in k seen) eqn:Es; [|reflexivity].
    apply is_in_In in Es.
    assert (is_in k (seen ++ j :: more) = true)
      by (apply is_in_In, in_or_app; now left).
    congruence.
  - exact Hr.
  - rewrite Hk. apply negb_false_iff, is_in_In, in_or_app. right. now left.
  - rewrite Hk. apply negb_true_iff.
    destruct (is_in j seen) eqn:Es; [|reflexivity].
    apply is_in_In in Es. contradiction.
Qed.

Lemma nothing_unseen (seen : list Z) :
  unseen table seen = [] -> reached_next parent table seen = [].
Proof.
  intros Hnone.
  destruct (reached_next parent table seen) as [|j more] eqn:E; [reflexivity|].
  exfalso.
  assert (Hj : In j (reached_next parent table seen)) by (rewrite E; now left).
  apply in_reached_next in Hj. destruct Hj as (r & p & Hr & Hk & _ & _ & Hout).
  assert (Hu : In r (unseen table seen)).
  { unfold unseen. apply filter_In. split; [exact Hr|].
    rewrite Hk. apply negb_true_iff.
    destruct (is_in j seen) eqn:Es; [|reflexivity].
    apply is_in_In in Es. contradiction. }
  rewrite Hnone in Hu. destruct Hu.
Qed.

(** With enough rounds the cascade ends because nothing new is reached. *)
Lemma cascade_saturates (rounds : nat) (seen : list Z) :
  (List.length (unseen table seen) <= rounds)%nat ->
  reached_next parent table (cascade parent rounds table seen) = [].
Proof.
  revert seen. induction rounds as [|n IH]; simpl; intros seen Hle.
  - apply nothing_unseen.
    destruct (unseen table seen); [reflexivity | simpl in Hle; lia].
  - destruct (reached_next parent table seen) as [|j more] eqn:E; [exact E|].
    apply IH. pose proof (unseen_shrinks seen j more E). lia.
Qed.

Lemma collect_saturated (seeds : list Z) :
  reached_next parent table (collect parent table seeds) = [].
Proof.
  apply cascade_saturates. unfold unseen. apply List.filter_length_le.
Qed.

(** The collected keys are the seeds and the keys of the rows below
    them. *)
Lemma collect_reaches (seeds : list Z) (k : Z) :
  In k (collect parent table seeds) <-> reaches parent table seeds k.
Proof.
  split.
  - apply cascade_sound. intros j Hj. now apply reaches_seed.
  - induction 1 as [j Hj | r j p Hr Hk Hp _ IH].
    + now apply cascade_grows.
    + destruct (is_in j (collect parent table seeds)) eqn:E;
        [now apply is_in_In|].
      exfalso.
      assert (Hj : In j (reached_next parent table (collect parent table seeds))).
      { apply in_reached_next. exists r, p. repeat split; auto.
        intros Hin. apply is_in_In in Hin. congruence. }
      rewrite collect_saturated in Hj. destruct Hj.
Qed.
End CollectFacts.

(** ** Deleting a category *)

Lemma Category_delete_protected (db : Database) (k : Z) (a : Article.t) :
  In a (articles db) ->
  reaches Category.parent (categories db) [k] (Article.category a) ->
  Category_delete db k = (Raised (ProtectedError "Article.category"), db).
Proof.
  intros Ha Hr. unfold Category_delete.
  replace (existsb _ (articles db)) with true; [reflexivity|].
  symmetry. apply existsb_exists. exists a. split; [exact Ha|].
  now apply is_in_In, collect_reaches.
Qed.

Lemma Category_delete_done (db : Database) (k : Z) :
  (forall a, In a (articles db) ->
             ~ reaches Category.parent (categories db) [k] (Article.category a)) ->
  Category_delete db k =
  (Done, set_categories
           (filter (fun c => negb (pk_in (collect Category.parent (categories db) [k]) c))
              (categories db)) db).
Proof.
  intros Hfree. unfold Category_delete.
  rewrite false_existsb; [reflexivity|].
  intros a Ha. destruct (is_in _ _) eqn:E; [|reflexivity].
  exfalso. apply (Hfree a Ha). now apply collect_reaches, is_in_In.
Qed.

Lemma not_collected {R : Type} `{L : ModelLaws R} (parent : R -> option Z)
    (table : list R) (seeds : list Z) (r : R) :
  negb (pk_in (collect parent table seeds) r) = true <->
  forall j, pk r = Some j -> ~ reaches parent table seeds j.
Proof.
  unfold pk_in. rewrite negb_true_iff. destruct (pk r) as [j|]; split.
  - intros E i Hi Hr. injection Hi as <-.
    apply collect_reaches, is_in_In in Hr. congruence.
  - intros Hno. destruct (is_in j _) eqn:E; [|reflexivity].
    exfalso. apply (Hno j eq_refl). now apply collect_reaches, is_in_In.
  - intros _ j Hj. discriminate.
  - reflexivity.
Qed.

(** C6, as stated, fails when the articles are in a category below the
    one deleted: no article refers to Tech (key 1), one refers to its
    child AI, and deleting Tech is refused. *)
Lemma Category_delete_blocked_by_descendant :
  (forall a, In a (articles tech_ai_db) -> Article.category a <> 1) /\
  Category_delete tech_ai_db 1 =
  (Raised (ProtectedError "Article.category"), tech_ai_db).
Proof.
  split; [|reflexivity].
  intros a [<-|[]]. discriminate.
Qed.

(** C6, amended.  Deleting a category is refused with ProtectedError,
    and the stored state stays as it was, whenever an article refers to
    that category or to a category below it.  When no article refers to
    the category or to one below it, the deletion completes: the
    categories that remain are those that are neither the deleted one nor
    below it, and the other tables are untouched. *)
Theorem Category_delete_protect_then_cascade (db : Database) (k : Z) :
  (forall a, In a (articles db) -> Article.category a = k ->
             Category_delete db k =
             (Raised (ProtectedError "Article.category"), db)) /\
  (forall a, In a (articles db) ->
             reaches Category.parent (categories db) [k] (Article.category a) ->
             Category_delete db k =
             (Raised (ProtectedError "Article.category"), db)) /\
  ((forall a, In a (articles db) ->
              ~ reaches Category.parent (categories db) [k] (Article.category a)) ->
   exists db',
     Category_delete db k = (Done, db') /\
     users db' = users db /\ articles db' = articles db /\
     comments db' = comments db /\ ratings db' = ratings db /\
     views db' = views db /\
     forall c, In c (categories db') <->
               In c (categories db) /\
               forall j, Category.id c = Some j ->
                         ~ reaches Category.parent (categories db) [k] j).
Proof.
  split; [|split].
  - intros a Ha Hk. apply (Category_delete_protected db k a Ha).
    apply reaches_seed. rewrite Hk. now left.
  - apply Category_delete_protected.
  - intros Hfree. eexists. split; [now apply Category_delete_done|].
    do 5 (split; [reflexivity|]).
    intros c. simpl. rewrite filter_In.
    split; intros [Hc Hno]; (split; [exact Hc|]).
    + exact (proj1 (not_collected Category.parent (categories db) [k] c) Hno).
    + exact (proj2 (not_collected Category.parent (categories db) [k] c) Hno).
Qed.

(** Tech and its child AI: with an article in AI, deleting Tech is
    refused; without articles it removes both. *)
Lemma Category_delete_protect_then_cascade_witness :
  Category_delete tech_ai_db 1 =
  (Raised (ProtectedError "Article.category"), tech_ai_db) /\
  exists db',
    Category_delete tech_ai_empty_db 1 = (Done, db') /\
    forall c, In c (categories db') <->
              In c (categories tech_ai_empty_db) /\
              forall j, Category.id c = Some j ->
                        ~ reaches Category.parent (categories tech_ai_empty_db) [1] j.
Proof.
  split.
  - apply (proj1 (proj2 (Category_delete_protect_then_cascade tech_ai_db 1)) ai_article).
    + now left.
    + apply (reaches_child Category.parent _ _ ai_category 2 1).
      * right. now left.
      * reflexivity.
      * reflexivity.
      * apply reaches_seed. now left.
  - destruct (proj2 (proj2 (Category_delete_protect_then_cascade tech_ai_empty_db 1)))
      as (db' & E & _ & _ & _ & _ & _ & Hc).
    + intros a [].
    + exists db'. split; [exact E | exact Hc].
Defined.

(** ** Deleting an article *)

Lemma pk_unique {R : Type} `{L : ModelLaws R} (table : list R) (r c : R) (j : Z) :
  NoDup (pks table) -> In r table -> In c table ->
  pk r = Some j -> pk c = Some j -> r = c.
Proof.
  induction table as [|x t IH]; intros Hnd Hr Hc Hrj Hcj; [destruct Hr|].
  assert (Ht : NoDup (pks t)).
  { unfold pks in Hnd. simpl in Hnd. now apply NoDup_app_remove_l in Hnd. }
  assert (Hhead : forall y, In y t -> pk y = Some j -> pk x = Some j -> False).
  { intros y Hy Hyj Hxj. unfold pks in Hnd. simpl in Hnd.
    rewrite Hxj in Hnd. simpl in Hnd. inversion Hnd as [|? ? Hout _]; subst.
    apply Hout. apply in_pks. now exists y. }
  destruct Hr as [->|Hr], Hc as [->|Hc].
  - reflexivity.
  - exfalso. now apply (Hhead c).
  - exfalso. now apply (Hhead r).
  - now apply IH.
Qed.

(** When replies stay in the article of their parent, everything the
    cascade reaches from the comments of article [k] is a comment of
    article [k]. *)
Lemma reached_in_article (table : list Comment.t) (k j : Z) :
  NoDup (pks table) -> replies_stay_in_article table ->
  reaches Comment.parent table
    (pks (filter (fun c => Comment.article c =? k) table)) j ->
  (exists c, In c table /\ Comment.id c = Some j) /\
  (forall c, In c table -> Comment.id c = Some j -> Comment.article c = k).
Proof.
  intros Hnd Hstay. induction 1 as [j Hj | r j p Hr Hk Hp _ [[q [Hq Hqp]] IH]].
  - apply in_pks in Hj. destruct Hj as (r & Hr & Hk).
    apply filter_In in Hr. destruct Hr as [Hr Ha]. apply Z.eqb_eq in Ha.
    split; [now exists r|].
    intros c Hc Hcj. now rewrite <- (pk_unique table r c j Hnd Hr Hc Hk Hcj).
  - split; [now exists r|].
    intros c Hc Hcj. rewrite <- (pk_unique table r c j Hnd Hr Hc Hk Hcj).
    rewrite (Hstay r q p Hr Hq Hp Hqp). now apply IH.
Qed.

(** C7, as stated, fails for a reply that belongs to another article
    than the comment it replies to: both comments are created through
    [Comment_create]; deleting article 1 also deletes the reply, a
    comment of article 2. *)
Lemma Article_delete_takes_replies_of_other_articles :
  fst (fst (Comment_create two_article_db first_comment_kwargs 8)) = Done /\
  fst (fst (Comment_create
              (snd (Comment_create two_article_db first_comment_kwargs 8))
              cross_reply_kwargs 9)) = Done /\
  In cross_reply (comments cross_reply_db) /\
  Comment.article cross_reply = 2 /\
  comments (snd (Article_delete cross_reply_db 1)) = [] /\
  ~ In cross_reply (comments (snd (Article_delete cross_reply_db 1))).
Proof.
  split; [reflexivity|]. split; [reflexivity|].
  split; [right; left; reflexivity|].
  split; [reflexivity|]. split; [reflexivity|].
  intros [].
Qed.

(** C7, amended.  Deleting an article always completes.  Afterwards no
    comment, rating or view refers to it; the ratings and views that
    remain are exactly those of the other articles, and users and
    categories are untouched.  The comments that remain are those that
    are neither comments of the deleted article nor, through any chain
    of replies, below one of them.  If every reply belongs to the
    article of the comment it replies to, the comments that remain are
    exactly those of the other articles. *)
Theorem Article_delete_cascades (db : Database) (k : Z) :
  all_keyed (comments db) ->
  exists db',
    Article_delete db k = (Done, db') /\
    users db' = users db /\ categories db' = categories db /\
    (forall a, In a (articles db') <-> In a (articles db) /\ Article.id a <> Some k) /\
    (forall r, In r (ratings db') <-> In r (ratings db) /\ Rating.article r <> k) /\
    (forall v, In v (views db') <-> In v (views db) /\ ViewCount.article v <> k) /\
    (forall c, In c (comments db') -> Comment.article c <> k) /\
    (forall c, In c (comments db') <->
               In c (comments db) /\
               forall j, Comment.id c = Some j ->
                 ~ reaches Comment.parent (comments db)
                     (pks (filter (fun c => Comment.article c =? k) (comments db))) j) /\
    (NoDup (pks (comments db)) -> replies_stay_in_article (comments db) ->
     forall c, In c (comments db') <-> In c (comments db) /\ Comment.article c <> k).
Proof.
  intros Hkeyed. eexists. split; [reflexivity|]. simpl.
  assert (Hleft : forall c,
             In c (filter (fun c => negb (pk_in (doomed_comments db k) c)) (comments db)) <->
             In c (comments db) /\
             forall j, Comment.id c = Some j ->
               ~ reaches Comment.parent (comments db)
                   (pks (filter (fun c => Comment.article c =? k) (comments db))) j).
  { intros c. rewrite filter_In. unfold doomed_comments.
    split; intros [Hc Hno]; (split; [exact Hc|]).
    - exact (proj1 (not_collected Comment.parent _ _ c) Hno).
    - exact (proj2 (not_collected Comment.parent _ _ c) Hno). }
  assert (Hgone : forall c,
             In c (filter (fun c => negb (pk_in (doomed_comments db k) c)) (comments db)) ->
             Comment.article c <> k).
  { intros c Hc Ha. apply Hleft in Hc. destruct Hc as [Hc Hno].
    destruct (Comment.id c) as [j|] eqn:Ej; [|now apply (Hkeyed c Hc)].
    apply (Hno j eq_refl). apply reaches_seed, in_pks.
    exists c. split; [|exact Ej].
    apply filter_In. split; [exact Hc | now apply Z.eqb_eq]. }
  split; [reflexivity|]. split; [reflexivity|].
  split; [|split; [|split; [|split; [exact Hgone | split; [exact Hleft|]]]]].
  - intros a. rewrite filter_In, negb_true_iff.
    split; intros [Ha Hk]; (split; [exact Ha|]).
    + exact (proj1 (has_pk_false k a) Hk).
    + exact (proj2 (has_pk_false k a) Hk).
  - intros r. rewrite filter_In, negb_true_iff, Z.eqb_neq. reflexivity.
  - intros v. rewrite filter_In, negb_true_iff, Z.eqb_neq. reflexivity.
  - intros Hnd Hstay c. split.
    + intros Hc. split; [now apply Hleft in Hc | now apply Hgone].
    + intros [Hc Ha]. apply Hleft. split; [exact Hc|].
      intros j Hj Hr.
      destruct (reached_in_article (comments db) k j Hnd Hstay Hr) as [_ Hall].
      now apply Ha, Hall.
Qed.

(** Article 1 with a comment and a reply to it, article 2 with a comment
    of its own: deleting article 1 leaves exactly the comment of
    article 2. *)
Lemma Article_delete_cascades_witness :
  exists db',
    Article_delete discussed_db 1 = (Done, db') /\
    (forall c, In c (comments db') -> Comment.article c <> 1) /\
    List.length (comments discussed_db) = 3%nat /\
    List.length (comments db') = 1%nat.
Proof.
  destruct (Article_delete_cascades discussed_db 1)
    as (db' & E & _ & _ & _ & _ & _ & Hgone & _).
  - intros r [<-|[<-|[<-|[]]]]; discriminate.
  - exists db'. split; [exact E|]. split; [exact Hgone|].
    injection E as <-. split; reflexivity.
Defined.

(** ** The order of sibling comments *)

(** The default ordering that [Comment.Meta] declares. *)
Lemma Comment_meta_ordering :
  meta_ordering Comment_class_body = Comment.Meta_ordering.
Proof. reflexivity. Qed.

(** C8.  The tree options of Comment are declared in an inner class
    named MTTMeta, so the class has no MPTTMeta and its
    [order_insertion_by] is empty (Category, which spells the name
    MPTTMeta, gets ['title']).  A new comment therefore becomes the
    last of its siblings: of two sibling comments the one created later
    stands after the one created earlier.  With the declared
    ['-time_create'] in force it would stand before it. *)
Theorem Comment_siblings_kept_in_insertion_order :
  class_attribute Comment_class_body "MPTTMeta" "order_insertion_by" = None /\
  mptt_order_insertion_by Comment_class_body = [] /\
  mptt_order_insertion_by Category_class_body = [(Asc, Category.F_title)] /\
  (forall siblings node,
      insert_node Comment.field_compare
        (mptt_order_insertion_by Comment_class_body) siblings node =
      siblings ++ [node]) /\
  Comment.time_create earlier_comment < Comment.time_create later_comment /\
  insert_node Comment.field_compare
    (mptt_order_insertion_by Comment_class_body) [earlier_comment] later_comment =
  [earlier_comment; later_comment] /\
  insert_node Comment.field_compare [(Desc, Comment.F_time_create)]
    [earlier_comment] later_comment =
  [later_comment; earlier_comment].
Proof.
  repeat split.
Qed.

(** * Further properties *)

(** ** Orderings in general *)

(** X1.  Every query set that keeps the default ordering of Article
    (the manager's own, [all] and [detail]) lists an article before
    another whenever it was created later, and, for two articles created
    at the same time, whenever it is pinned and the other is not. *)
Theorem Article_default_ordering_recency_then_pinned
    (db : Database) (qs : QuerySet) (a b : Article.t) :
  qs_ordering qs = Article.Meta_ordering ->
  In a (fetch db qs) -> In b (fetch db qs) ->
  Article.time_create b < Article.time_create a \/
  (Article.time_create a = Article.time_create b /\
   Article.fixed a = true /\ Article.fixed b = false) ->
  precedes a b (fetch db qs).
Proof.
  intros Hord Ha Hb Hlater. unfold fetch in *. rewrite Hord in *.
  apply (sorted_precedes Article.field_compare Article.Meta_ordering
           Article_ordering_total).
  - apply order_by_sorted;
      [apply Article_ordering_total | apply Article_ordering_trans].
  - exact Ha.
  - exact Hb.
  - destruct (not_after _ _ b a) eqn:E; [|reflexivity].
    apply Article_not_after_iff in E.
    destruct Hlater as [Hlt|(Heq & Hfa & Hfb)]; [lia|].
    destruct E as [E|[_ [E|E]]]; [lia | congruence | congruence].
Qed.

Lemma Article_default_ordering_recency_then_pinned_witness :
  precedes plain_newer pinned_older (fetch two_articles ArticleManager_all).
Proof.
  apply (Article_default_ordering_recency_then_pinned two_articles
           ArticleManager_all plain_newer pinned_older).
  - reflexivity.
  - left. reflexivity.
  - right. left. reflexivity.
  - left. reflexivity.
Defined.

Lemma Rating_not_after_iff (r q : Rating.t) :
  not_after Rating.field_compare Rating.Meta_ordering r q = true <->
  Rating.time_create q <= Rating.time_create r.
Proof.
  unfold not_after, Rating.Meta_ordering, compare_by, term_compare; simpl.
  destruct (Z.compare_spec (Rating.time_create r) (Rating.time_create q));
    simpl; split; intros; try reflexivity; try discriminate; lia.
Qed.

Lemma Rating_ordering_total (r q : Rating.t) :
  not_after Rating.field_compare Rating.Meta_ordering r q = false ->
  not_after Rating.field_compare Rating.Meta_ordering q r = true.
Proof.
  intros H. apply Rating_not_after_iff.
  destruct (Z.le_gt_cases (Rating.time_create q) (Rating.time_create r)) as [Hle|Hgt];
    [|lia].
  apply Rating_not_after_iff in Hle. congruence.
Qed.

Lemma Rating_ordering_trans (r q s : Rating.t) :
  not_after Rating.field_compare Rating.Meta_ordering r q = true ->
  not_after Rating.field_compare Rating.Meta_ordering q s = true ->
  not_after Rating.field_compare Rating.Meta_ordering r s = true.
Proof.
  rewrite !Rating_not_after_iff. lia.
Qed.

(** The query of the related manager lists a rating before every
    rating of the article that was created earlier. *)
Lemma ratings_of_newest_first (db : Database) (k : Z) (r q : Rating.t) :
  In r (ratings db) -> In q (ratings db) ->
  Rating.article r = k -> Rating.article q = k ->
  Rating.time_create q < Rating.time_create r ->
  precedes r q (ratings_of db k).
Proof.
  intros Hr Hq Har Haq Hlt. unfold ratings_of.
  apply (sorted_precedes Rating.field_compare Rating.Meta_ordering
           Rating_ordering_total).
  - apply order_by_sorted;
      [apply Rating_ordering_total | apply Rating_ordering_trans].
  - apply order_by_In, filter_In. split; [exact Hr | now apply Z.eqb_eq].
  - apply order_by_In, filter_In. split; [exact Hq | now apply Z.eqb_eq].
  - destruct (not_after _ _ q r) eqn:E; [|reflexivity].
    apply Rating_not_after_iff in E. lia.
Qed.

(** X2.  On an object with a key that carries no prefetched ratings,
    [self.ratings.all()] holds exactly the ratings stored for the
    article at the time of the call, each as often as it is stored, and
    lists a rating before every rating of the article that was created
    earlier.  On an object loaded by [ArticleManager.all] or
    [ArticleManager.detail] it holds, in the same order, the ratings
    that were stored for the article when the object was loaded,
    whatever is stored at the time of the call.  On an object without
    key it raises ValueError. *)
Theorem Article_ratings_newest_first :
  (forall db a k,
      Article.id a = Some k ->
      exists rated,
        Article_ratings_all db (unfetched a) = Result rated /\
        Permutation rated
          (filter (fun r => Rating.article r =? k) (ratings db)) /\
        forall r q,
          In r (ratings db) -> In q (ratings db) ->
          Rating.article r = k -> Rating.article q = k ->
          Rating.time_create q < Rating.time_create r ->
          precedes r q rated) /\
  (forall db qs self k later,
      qs = ArticleManager_all \/ qs = ArticleManager_detail ->
      In self (fetch_instances db qs) ->
      Article.id (fields self) = Some k ->
      exists rated,
        Article_ratings_all later self = Result rated /\
        Permutation rated
          (filter (fun r => Rating.article r =? k) (ratings db)) /\
        forall r q,
          In r (ratings db) -> In q (ratings db) ->
          Rating.article r = k -> Rating.article q = k ->
          Rating.time_create q < Rating.time_create r ->
          precedes r q rated) /\
  (forall db self,
      Article.id (fields self) = None ->
      Article_ratings_all db self = ValueError).
Proof.
  split; [|split].
  - intros db a k Hk. exists (ratings_of db k).
    split; [|split; [apply ratings_of_perm|]].
    + unfold Article_ratings_all, unfetched. simpl. now rewrite Hk.
    + intros r q. apply ratings_of_newest_first.
  - intros db qs self k later Hqs Hin Hk. exists (ratings_of db k).
    split; [|split; [apply ratings_of_perm|]].
    + now apply (Article_ratings_all_prefetched db later qs).
    + intros r q. apply ratings_of_newest_first.
  - intros db self Hk. unfold Article_ratings_all. now rewrite Hk.
Qed.

(** The three ratings of [rated_thrice_db], created at times 10, 11 and
    12, are read newest first; article 2, loaded by [ArticleManager.all]
    before it has a rating, answers with no rating also after a like for
    it is stored. *)
Lemma Article_ratings_newest_first_witness :
  (exists rated,
      Article_ratings_all rated_thrice_db (unfetched hello_article) = Result rated /\
      map Rating.time_create rated = [12; 11; 10]) /\
  (exists rated,
      Article_ratings_all
        (after_rating two_article_db (like_second_from "1.2.3.4") 10)
        second_as_listed = Result rated /\
      Permutation rated
        (filter (fun r => Rating.article r =? 2) (ratings two_article_db))).
Proof.
  destruct Article_ratings_newest_first as (Hstored & Hloaded & _).
  split.
  - destruct (Hstored rated_thrice_db hello_article 1 eq_refl)
      as (rated & E & _ & _).
    exists rated. split; [exact E|].
    injection E as <-. reflexivity.
  - assert (Hin : In second_as_listed
                     (fetch_instances two_article_db ArticleManager_all))
      by (left; reflexivity).
    destruct (Hloaded two_article_db ArticleManager_all second_as_listed 2
                (after_rating two_article_db (like_second_from "1.2.3.4") 10)
                (or_introl eq_refl) Hin eq_refl) as (rated & E & Hp & _).
    exists rated. now split.
Defined.

(** ** Views *)

(** X3.  Views are never deduplicated: a new view of a stored article is
    always stored, whatever views the table holds already (also from the
    same address); it is stamped with the time of the call and the
    number of views of the article grows by one. *)
Theorem ViewCount_save_always_appends (db : Database) (self : ViewCount.t) (now : Z) :
  ViewCount.id self = None ->
  exists_pk (ViewCount.article self) (articles db) = true ->
  exists self',
    ViewCount_save db self now = (Done, self', set_views (views db ++ [self']) db) /\
    ViewCount.article self' = ViewCount.article self /\
    ViewCount.ip_address self' = ViewCount.ip_address self /\
    ViewCount.viewed_on self' = now /\
    List.length (views_of (set_views (views db ++ [self']) db) (ViewCount.article self)) =
    S (List.length (views_of db (ViewCount.article self))).
Proof.
  intros Hnew Harticle.
  unfold ViewCount_save, save_base. simpl. rewrite Hnew.
  unfold ViewCount_violation. simpl. rewrite Harticle. simpl.
  eexists. split; [reflexivity|]. repeat split.
  unfold views_of. simpl. rewrite filter_app, length_app. simpl.
  rewrite Z.eqb_refl. simpl. lia.
Qed.

Lemma ViewCount_save_always_appends_witness :
  exists first second,
    ViewCount_save hello_db (view_from "1.2.3.4") 20 =
      (Done, first, set_views [first] hello_db) /\
    ViewCount_save (set_views [first] hello_db) (view_from "1.2.3.4") 21 =
      (Done, second, set_views [first; second] (set_views [first] hello_db)) /\
    ViewCount.ip_address first = ViewCount.ip_address second.
Proof.
  destruct (ViewCount_save_always_appends hello_db (view_from "1.2.3.4") 20
              eq_refl eq_refl) as (first & E1 & _ & Hip1 & _).
  exists first.
  destruct (ViewCount_save_always_appends (set_views [first] hello_db)
              (view_from "1.2.3.4") 21 eq_refl eq_refl) as (second & E2 & _ & Hip2 & _).
  exists second. split; [exact E1|]. split; [exact E2|].
  now rewrite Hip1, Hip2.
Defined.

(** ** More on Article.save *)

Lemma set_articles_same (db : Database) : set_articles (articles db) db = db.
Proof. now destruct db. Qed.

Lemma Article_violation_fk (db : Database) (own : option Z) (a : Article.t) :
  Article_violation db own a = None ->
  user_exists db (Article.author a) = true /\
  optional_user_exists db (Article.updater a) = true /\
  exists_pk (Article.category a) (categories db) = true.
Proof.
  unfold Article_violation.
  destruct (existsb _ (articles db)); [discriminate|].
  destruct (user_exists db (Article.author a)); [|discriminate].
  destruct (optional_user_exists db (Article.updater a)); [|discriminate].
  destruct (exists_pk (Article.category a) (categories db)); [|discriminate].
  now repeat split.
Qed.

Lemma Article_violation_intro (db : Database) (own : option Z) (a : Article.t) :
  (forall b, In b (articles db) -> is_own own b = false ->
             Article.slug b <> Article.slug a) ->
  user_exists db (Article.author a) = true ->
  optional_user_exists db (Article.updater a) = true ->
  exists_pk (Article.category a) (categories db) = true ->
  Article_violation db own a = None.
Proof.
  intros Hslug Hauthor Hupdater Hcat. unfold Article_violation.
  rewrite false_existsb.
  - now rewrite Hauthor, Hupdater, Hcat.
  - intros b Hb. destruct (is_own own b) eqn:Eo.
    + now rewrite andb_false_r.
    + rewrite andb_true_r. apply String.eqb_neq. now apply Hslug.
Qed.

Lemma Article_violation_taken (db : Database) (own : option Z) (a b : Article.t) :
  In b (articles db) -> Article.slug b = Article.slug a -> is_own own b = false ->
  Article_violation db own a = Some (UniqueViolation ["slug"]).
Proof.
  intros Hb Hs Ho. unfold Article_violation.
  replace (existsb _ (articles db)) with true; [reflexivity|].
  symmetry. apply existsb_exists. exists b. split; [exact Hb|].
  now rewrite Hs, String.eqb_refl, Ho.
Qed.

(** X4.  A new article that is saved successfully becomes the last row
    of the table, under a key no stored article has.  If its status is
    'published' the answers of [all] and [detail] gain exactly this row;
    with any other status both answers hold the same rows as before. *)
Theorem new_article_listed_iff_published
    (unique_slugify : Database -> Article.t -> string -> string)
    (db : Database) (self : Article.t) (now : Z)
    (self' : Article.t) (db' : Database) :
  Article.id self = None ->
  Article_save unique_slugify db self now = (Done, self', db') ->
  articles db' = articles db ++ [self'] /\
  (forall b, In b (articles db) -> Article.id b <> Article.id self') /\
  (Article.status self = "published" ->
   Permutation (fetch db' ArticleManager_all) (self' :: fetch db ArticleManager_all) /\
   Permutation (fetch db' ArticleManager_detail)
     (self' :: fetch db ArticleManager_detail)) /\
  (Article.status self <> "published" ->
   Permutation (fetch db' ArticleManager_all) (fetch db ArticleManager_all) /\
   Permutation (fetch db' ArticleManager_detail) (fetch db ArticleManager_detail)).
Proof.
  intros Hnew E. unfold Article_save in E.
  pose proof (Article_super_save_fields _ _ _ _ _ _ E) as (Hf & _ & _).
  destruct Hf as (_ & _ & _ & _ & _ & Hstatus & _).
  assert (Hs : Article.status self' = Article.status self).
  { rewrite <- Hstatus. now destruct (String.eqb _ ""). }
  apply Article_super_save_inv in E. destruct E as [E _].
  apply save_base_Done in E.
  destruct E as [(k & Hk & _)|[(k & Hk & _)|(_ & _ & Hrow & Ht)]].
  - exfalso. destruct (String.eqb _ "") in Hk; simpl in Hk; congruence.
  - exfalso. destruct (String.eqb _ "") in Hk; simpl in Hk; congruence.
  - assert (Hfilter : filter is_published (articles db') =
                      filter is_published (articles db) ++
                      (if is_published self' then [self'] else [])).
    { rewrite Ht, filter_app. simpl. now destruct (is_published self'). }
    split; [exact Ht|]. split.
    + intros b Hb Heq. rewrite Hrow in Heq. simpl in Heq.
      apply (next_pk_fresh (articles db)). apply in_pks. now exists b.
    + assert (Hpub : is_published self' =
                     String.eqb (Article.status self) "published")
        by (unfold is_published; now rewrite Hs).
      rewrite Hpub in Hfilter.
      split; intros Hp.
      * rewrite Hp in Hfilter. simpl in Hfilter.
        split;
          (eapply perm_trans; [first [apply fetch_all_perm | apply fetch_detail_perm]|]);
          rewrite Hfilter;
          (eapply perm_trans; [apply Permutation_sym, Permutation_cons_append|]);
          apply perm_skip, Permutation_sym;
          first [apply fetch_all_perm | apply fetch_detail_perm].
      * apply String.eqb_neq in Hp. rewrite Hp, app_nil_r in Hfilter.
        split;
          (eapply perm_trans; [first [apply fetch_all_perm | apply fetch_detail_perm]|]);
          rewrite Hfilter; apply Permutation_sym;
          first [apply fetch_all_perm | apply fetch_detail_perm].
Qed.

Lemma new_article_listed_iff_published_witness :
  exists self' db',
    Article_create suffix_slugify hello_db news_kwargs 7 = (Done, self', db') /\
    Permutation (fetch db' ArticleManager_all)
      (self' :: fetch hello_db ArticleManager_all).
Proof.
  eexists. eexists. split; [reflexivity|].
  apply (new_article_listed_iff_published suffix_slugify hello_db
           (Article_init news_kwargs) 7 _ _ eq_refl eq_refl).
  reflexivity.
Defined.

Lemma Article_violation_missing_category (db : Database) (own : option Z)
    (a : Article.t) :
  exists_pk (Article.category a) (categories db) = false ->
  exists e, Article_violation db own a = Some e.
Proof.
  intros Hcat. unfold Article_violation.
  destruct (existsb _ (articles db)); [eexists; reflexivity|].
  destruct (user_exists db (Article.author a)); [|eexists; reflexivity].
  destruct (optional_user_exists db (Article.updater a)); [|eexists; reflexivity].
  rewrite Hcat. eexists. reflexivity.
Qed.

(** A violation reported for every row that carries the caller's fields
    of [self] makes [super().save] fail with the state unchanged. *)
Lemma Article_super_save_refused (db : Database) (self : Article.t) (now : Z)
    (P : DbError -> Prop) :
  (forall own row,
      (own = None \/ own = Article.id self) ->
      same_given_fields self row -> Article.id row = Article.id self ->
      exists e, Article_violation db own row = Some e /\ P e) ->
  exists e self', Article_super_save db self now = (Raised e, self', db) /\ P e.
Proof.
  intros Hv. unfold Article_super_save, save_base. simpl.
  destruct (Article.id self) as [k|] eqn:Ek.
  - destruct (exists_pk k (articles db)) eqn:Ex.
    + destruct (Hv (Some k) (Article.with_times (Article.time_create self) now self))
        as (e & He & HP).
      * now right.
      * now repeat split.
      * exact Ek.
      * rewrite He. cbn iota beta. rewrite set_articles_same.
        eexists. eexists. split; [reflexivity | exact HP].
    + destruct (Hv None
                  (Article.with_times now now
                     (Article.with_times (Article.time_create self) now self)))
        as (e & He & HP).
      * now left.
      * now repeat split.
      * exact Ek.
      * rewrite He. cbn iota beta. rewrite set_articles_same.
        eexists. eexists. split; [reflexivity | exact HP].
  - destruct (Hv None (Article.with_times now now self)) as (e & He & HP).
    + now left.
    + now repeat split.
    + exact Ek.
    + rewrite He. cbn iota beta. rewrite set_articles_same.
        eexists. eexists. split; [reflexivity | exact HP].
Qed.

(** X5.  A refused [Article.save] stores nothing: the state is the one
    before the call, while the instance keeps the slug the call gave it
    (the derived one when it was empty).  The call is refused with the
    violation of the unique constraint when another stored article
    already has the slug of the instance, and it is refused when the
    category of the instance is not stored. *)
Theorem Article_save_refused_changes_nothing
    (unique_slugify : Database -> Article.t -> string -> string)
    (db : Database) (self : Article.t) (now : Z) :
  (forall e self' db',
      Article_save unique_slugify db self now = (Raised e, self', db') ->
      db' = db /\
      Article.slug self' =
        if String.eqb (Article.slug self) ""
        then unique_slugify db self (Article.title self)
        else Article.slug self) /\
  (forall b,
      In b (articles db) -> Article.slug self <> "" ->
      Article.slug b = Article.slug self -> Article.id b <> Article.id self ->
      exists self',
        Article_save unique_slugify db self now =
        (Raised (UniqueViolation ["slug"]), self', db)) /\
  (exists_pk (Article.category self) (categories db) = false ->
   exists e self',
     Article_save unique_slugify db self now = (Raised e, self', db)).
Proof.
  split; [|split].
  - intros e self' db' E. unfold Article_save in E.
    pose proof (Article_super_save_fields _ _ _ _ _ _ E) as (Hf & _ & _).
    destruct Hf as (_ & Hslug & _).
    apply Article_super_save_inv in E. destruct E as [E Hdb].
    apply save_base_Raised in E. rewrite E, set_articles_same in Hdb.
    split; [exact Hdb|]. rewrite <- Hslug.
    now destruct (String.eqb (Article.slug self) "").
  - intros b Hb Hne Hs Hid. unfold Article_save.
    apply String.eqb_neq in Hne. rewrite Hne.
    destruct (Article_super_save_refused db self now
                (fun e => e = UniqueViolation ["slug"])) as (e & self' & E & He).
    + intros own row Hown Hf Hrow.
      exists (UniqueViolation ["slug"]). split; [|reflexivity].
      apply (Article_violation_taken db own row b Hb).
      * destruct Hf as (_ & <- & _). exact Hs.
      * destruct Hown as [-> | ->]; [reflexivity|].
        destruct (Article.id self) as [k|]; [|reflexivity].
        now apply (proj2 (has_pk_false k b)).
    + exists self'. now rewrite <- He.
  - intros Hcat. unfold Article_save.
    set (s := if String.eqb (Article.slug self) "" then _ else self).
    assert (Hc : Article.category s = Article.category self)
      by (unfold s; now destruct (String.eqb _ "")).
    destruct (Article_super_save_refused db s now (fun _ => True))
      as (e & self' & E & _).
    + intros own row _ Hf _.
      destruct (Article_violation_missing_category db own row) as [e He].
      * destruct Hf as (_ & _ & _ & _ & _ & _ & _ & _ & _ & <-). now rewrite Hc.
      * now exists e.
    + now exists e, self'.
Qed.

(** The title 'hello' is taken in [hello_db]: a second article that asks
    for the slug 'hello' is refused. *)
Lemma Article_save_refused_changes_nothing_witness :
  exists self',
    Article_save suffix_slugify hello_db (Article.with_slug "hello" unslugged_article) 7 =
    (Raised (UniqueViolation ["slug"]), self', hello_db).
Proof.
  apply (proj1 (proj2 (Article_save_refused_changes_nothing suffix_slugify hello_db
                         (Article.with_slug "hello" unslugged_article) 7))
           hello_article).
  - now left.
  - discriminate.
  - reflexivity.
  - discriminate.
Defined.

(** After a completed save the foreign keys of the saved instance
    resolve, also in the new state. *)
Lemma Article_saved_fk db self now self' db' :
  Article_super_save db self now = (Done, self', db') ->
  user_exists db' (Article.author self') = true /\
  optional_user_exists db' (Article.updater self') = true /\
  exists_pk (Article.category self') (categories db') = true.
Proof.
  intros E. apply Article_super_save_inv in E. destruct E as [E Hdb].
  assert (Hu : users db' = users db) by (rewrite Hdb; reflexivity).
  assert (Hc : categories db' = categories db) by (rewrite Hdb; reflexivity).
  unfold user_exists, optional_user_exists, user_exists. rewrite Hu, Hc.
  completed_save E k.
  - rewrite Hs in *. exact (Article_violation_fk _ _ _ Hv).
  - rewrite Hs in *. exact (Article_violation_fk _ _ _ Hv).
  - rewrite Hs. exact (Article_violation_fk _ _ _ Hv).
Qed.

(** X6.  An article that was saved can be saved again as it is: when
    its slug is not empty the second call is an UPDATE that completes.
    It overwrites the row of the article, leaves the number of rows as
    it is, and changes nothing on the instance but [time_update]: key,
    slug, creation time and the caller's fields stay. *)
Theorem Article_save_again
    (unique_slugify : Database -> Article.t -> string -> string)
    (db : Database) (self : Article.t) (now : Z)
    (self' : Article.t) (db' : Database) (later : Z) :
  Article_save unique_slugify db self now = (Done, self', db') ->
  Article.slug self' <> "" ->
  exists k,
    Article.id self' = Some k /\
    Article_save unique_slugify db' self' later =
    (Done,
     Article.with_times (Article.time_create self') later self',
     set_articles
       (map (fun r => if has_pk k r
                      then Article.with_times (Article.time_create self') later self'
                      else r)
          (articles db')) db') /\
    List.length
      (map (fun r => if has_pk k r
                     then Article.with_times (Article.time_create self') later self'
                     else r)
         (articles db')) = List.length (articles db').
Proof.
  intros E Hslug. unfold Article_save in E.
  pose proof (Article_super_save_unique _ _ _ _ _ E) as (Hin & Huniq & _).
  pose proof (Article_saved_fk _ _ _ _ _ E) as (Hauthor & Hupdater & Hcat).
  assert (Hkey : exists k, Article.id self' = Some k).
  { apply Article_super_save_inv in E. destruct E as [E _].
    now apply (save_base_stored _ _ _ _ _ _ E). }
  destruct Hkey as [k Hk]. exists k. split; [exact Hk|].
  split; [|apply length_map].
  unfold Article_save. apply String.eqb_neq in Hslug. rewrite Hslug.
  unfold Article_super_save, save_base. simpl. rewrite Hk.
  assert (Hex : exists_pk k (articles db') = true).
  { apply exists_pk_true, in_pks. now exists self'. }
  rewrite Hex.
  rewrite (Article_violation_intro db' (Some k)
             (Article.with_times (Article.time_create self') later self')).
  - reflexivity.
  - intros b Hb Hown. simpl. apply Huniq; [exact Hb|].
    rewrite Hk. exact (proj1 (has_pk_false k b) Hown).
  - exact Hauthor.
  - exact Hupdater.
  - exact Hcat.
Qed.

Lemma Article_save_again_witness :
  exists k,
    Article.id (Article.with_times 5 9 hello_article) = Some k /\
    Article_save suffix_slugify
      (set_articles [Article.with_times 5 9 hello_article] hello_db)
      (Article.with_times 5 9 hello_article) 12 =
    (Done,
     Article.with_times 5 12 hello_article,
     set_articles
       (map (fun r => if has_pk k r then Article.with_times 5 12 hello_article else r)
          [Article.with_times 5 9 hello_article])
       (set_articles [Article.with_times 5 9 hello_article] hello_db)) /\
    List.length
      (map (fun r => if has_pk k r then Article.with_times 5 12 hello_article else r)
         [Article.with_times 5 9 hello_article]) = 1%nat.
Proof.
  apply (Article_save_again suffix_slugify hello_db hello_article 9
           (Article.with_times 5 9 hello_article)
           (set_articles [Article.with_times 5 9 hello_article] hello_db) 12).
  - reflexivity.
  - discriminate.
Defined.

(** After a completed save the key of the instance belongs to its row
    alone. *)
Lemma save_base_own_row {R : Type} `{L : ModelLaws R}
    (violation : option Z -> R -> option DbError)
    (table : list R) (self : R) (now : Z) (self' : R) (table' : list R) (b : R) :
  save_base violation table self now = (Done, self', table') ->
  In b table' -> pk b = pk self' -> b = self'.
Proof.
  intros E Hb Hpk. completed_save E k.
  - rewrite Ht in Hb. apply in_overwritten in Hb.
    destruct Hb as [Hb|[_ Hown]]; [exact Hb|].
    exfalso. apply has_pk_false in Hown. apply Hown.
    now rewrite Hpk, Hs, pk_pre_save.
  - rewrite Ht in Hb. apply in_app_or in Hb.
    destruct Hb as [Hb|[Hb|[]]]; [|now symmetry].
    exfalso. apply exists_pk_false in Hex. apply Hex, in_pks.
    exists b. split; [exact Hb|]. now rewrite Hpk, Hs, !pk_pre_save.
  - rewrite Ht in Hb. apply in_app_or in Hb.
    destruct Hb as [Hb|[Hb|[]]]; [|now symmetry].
    exfalso. apply (next_pk_fresh table), in_pks.
    exists b. split; [exact Hb|]. now rewrite Hpk, Hs, pk_with_pk.
Qed.

(** X7.  After a completed [Article.save] the key of the article belongs
    to one row only, and whether the article is listed follows its
    status: with status 'published' its row is in the answers of [all]
    and [detail]; with any other status no row with its key is in either
    answer, whatever was listed before. *)
Theorem saved_article_listed_by_status
    (unique_slugify : Database -> Article.t -> string -> string)
    (db : Database) (self : Article.t) (now : Z)
    (self' : Article.t) (db' : Database) :
  Article_save unique_slugify db self now = (Done, self', db') ->
  (forall b, In b (articles db') -> Article.id b = Article.id self' -> b = self') /\
  (Article.status self = "published" ->
   In self' (fetch db' ArticleManager_all) /\
   In self' (fetch db' ArticleManager_detail)) /\
  (Article.status self <> "published" ->
   forall b,
     In b (fetch db' ArticleManager_all) \/ In b (fetch db' ArticleManager_detail) ->
     Article.id b <> Article.id self').
Proof.
  intros E. unfold Article_save in E.
  pose proof (Article_super_save_fields _ _ _ _ _ _ E) as (Hf & _ & _).
  destruct Hf as (_ & _ & _ & _ & _ & Hstatus & _).
  assert (Hs : Article.status self' = Article.status self).
  { rewrite <- Hstatus. now destruct (String.eqb _ ""). }
  pose proof (Article_super_save_unique _ _ _ _ _ E) as (Hin & _).
  apply Article_super_save_inv in E. destruct E as [E _].
  assert (Hown : forall b, In b (articles db') ->
                           Article.id b = Article.id self' -> b = self').
  { intros b Hb Hid. exact (save_base_own_row _ _ _ _ _ _ b E Hb Hid). }
  split; [exact Hown|]. split.
  - intros Hp. apply published_in_policies; [exact Hin | congruence].
  - intros Hp b Hb Hid.
    assert (Hrow : In b (filter is_published (articles db'))).
    { destruct Hb as [Hb|Hb].
      - eapply Permutation_in; [apply fetch_all_perm | exact Hb].
      - eapply Permutation_in; [apply fetch_detail_perm | exact Hb]. }
    apply filter_In in Hrow. destruct Hrow as [Hb' Hpub].
    rewrite (Hown b Hb' Hid) in Hpub. unfold is_published in Hpub.
    apply String.eqb_eq in Hpub. congruence.
Qed.

(** The stored draft of [hello_db], saved again, stays out of both
    answers. *)
Lemma saved_article_listed_by_status_witness :
  (forall b,
      In b (articles (set_articles [Article.with_times 5 9 hello_article] hello_db)) ->
      Article.id b = Article.id (Article.with_times 5 9 hello_article) ->
      b = Article.with_times 5 9 hello_article) /\
  (Article.status hello_article = "published" ->
   In (Article.with_times 5 9 hello_article)
      (fetch (set_articles [Article.with_times 5 9 hello_article] hello_db)
         ArticleManager_all) /\
   In (Article.with_times 5 9 hello_article)
      (fetch (set_articles [Article.with_times 5 9 hello_article] hello_db)
         ArticleManager_detail)) /\
  (Article.status hello_article <> "published" ->
   forall b,
     In b (fetch (set_articles [Article.with_times 5 9 hello_article] hello_db)
             ArticleManager_all) \/
     In b (fetch (set_articles [Article.with_times 5 9 hello_article] hello_db)
             ArticleManager_detail) ->
     Article.id b <> Article.id (Article.with_times 5 9 hello_article)).
Proof.
  exact (saved_article_listed_by_status suffix_slugify hello_db hello_article 9
           (Article.with_times 5 9 hello_article)
           (set_articles [Article.with_times 5 9 hello_article] hello_db) eq_refl).
Defined.

(** ** Deleting comments *)

Section RemainingRows.
Context {R : Type} `{L : ModelLaws R}.
Variable parent : R -> option Z.
Variable table : list R.
Variable seeds : list Z.

Lemma in_remaining (r : R) :
  In r (filter (fun r => negb (pk_in (collect parent table seeds) r)) table) <->
  In r table /\ forall j, pk r = Some j -> ~ reaches parent table seeds j.
Proof.
  rewrite filter_In.
  split; intros [Hr Hno]; (split; [exact Hr|]).
  - exact (proj1 (not_collected parent table seeds r) Hno).
  - exact (proj2 (not_collected parent table seeds r) Hno).
Qed.

(** A row that stays does not hang below a row that goes. *)
Lemma parent_of_remaining (r : R) (p : Z) :
  In r table -> pk r <> None ->
  (forall j, pk r = Some j -> ~ reaches parent table seeds j) ->
  parent r = Some p -> ~ reaches parent table seeds p.
Proof.
  intros Hr Hkeyed Hno Hp Hreach.
  destruct (pk r) as [j|] eqn:Ej; [|now apply Hkeyed].
  apply (Hno j eq_refl).
  now apply (reaches_child parent table seeds r j p).
Qed.

Lemma key_remains (p : Z) :
  In p (pks table) -> ~ reaches parent table seeds p ->
  In p (pks (filter (fun r => negb (pk_in (collect parent table seeds) r)) table)).
Proof.
  intros Hp Hno. apply in_pks in Hp. destruct Hp as (q & Hq & Hk).
  apply in_pks. exists q. split; [|exact Hk].
  apply in_remaining. split; [exact Hq|].
  intros j Hj. rewrite Hk in Hj. injection Hj as <-. exact Hno.
Qed.

Lemma remaining_keys (p : Z) :
  In p (pks (filter (fun r => negb (pk_in (collect parent table seeds) r)) table)) ->
  In p (pks table).
Proof.
  intros Hp. apply in_pks in Hp. destruct Hp as (q & Hq & Hk).
  apply filter_In in Hq. apply in_pks. exists q. now split.
Qed.
End RemainingRows.

(** X8.  Deleting a comment always completes and touches no other
    table.  The comments that remain are those that are neither the
    deleted comment nor, through any chain of replies, below it; the
    deleted comment is gone, and when the keys are distinct a comment
    without parent other than the deleted one always stays. *)
Theorem Comment_delete_removes_thread (db : Database) (k : Z) :
  exists db',
    Comment_delete db k = (Done, db') /\
    users db' = users db /\ categories db' = categories db /\
    articles db' = articles db /\ ratings db' = ratings db /\
    views db' = views db /\
    (forall c, In c (comments db') <->
               In c (comments db) /\
               forall j, Comment.id c = Some j ->
                         ~ reaches Comment.parent (comments db) [k] j) /\
    (forall c, In c (comments db') -> Comment.id c <> Some k) /\
    (NoDup (pks (comments db)) ->
     forall c, In c (comments db) -> Comment.parent c = None ->
               Comment.id c <> Some k -> In c (comments db')).
Proof.
  eexists. split; [reflexivity|]. do 5 (split; [reflexivity|]). simpl.
  split; [intros c; exact (in_remaining Comment.parent (comments db) [k] c)|].
  split.
  - intros c Hc Hk.
    apply (proj1 (in_remaining Comment.parent (comments db) [k] c)) in Hc.
    destruct Hc as [_ Hno]. apply (Hno k Hk). apply reaches_seed. now left.
  - intros Hnd c Hc Hroot Hk.
    apply (proj2 (in_remaining Comment.parent (comments db) [k] c)).
    split; [exact Hc|]. intros j Hj Hreach.
    inversion Hreach as [i Hi | r i p Hr Hri Hp _]; subst.
    + destruct Hi as [<-|[]]. exact (Hk Hj).
    + assert (r = c) by now apply (pk_unique (comments db) r c j).
      subst r. congruence.
Qed.

(** ** Referential integrity under deletion *)

Lemma in_pks_without {R : Type} `{L : ModelLaws R} (k j : Z) (table : list R) :
  In j (pks (filter (fun r => negb (has_pk k r)) table)) <->
  In j (pks table) /\ j <> k.
Proof.
  rewrite !in_pks. split.
  - intros (r & Hr & Hj). apply filter_In in Hr. destruct Hr as [Hr Hk].
    split; [now exists r|]. intros ->.
    apply negb_true_iff, has_pk_false in Hk. contradiction.
  - intros [(r & Hr & Hj) Hne]. exists r. split; [|exact Hj].
    apply filter_In. split; [exact Hr|].
    apply negb_true_iff, has_pk_false. rewrite Hj. congruence.
Qed.

Lemma pks_map_same {R : Type} `{Model R} (f : R -> R) (table : list R) :
  (forall r, pk (f r) = pk r) -> pks (map f table) = pks table.
Proof.
  intros Hf. unfold pks. induction table as [|r t IH]; simpl; [reflexivity|].
  now rewrite Hf, IH.
Qed.

Lemma seed_is_reached (table : list Comment.t) (test : Comment.t -> bool)
    (c : Comment.t) :
  In c table -> Comment.id c <> None -> test c = true ->
  ~ (forall j, Comment.id c = Some j ->
               ~ reaches Comment.parent table (pks (filter test table)) j).
Proof.
  intros Hc Hkeyed Ht Hno.
  destruct (Comment.id c) as [j|] eqn:Ej; [|now apply Hkeyed].
  apply (Hno j eq_refl). apply reaches_seed, in_pks.
  exists c. split; [|exact Ej]. apply filter_In. now split.
Qed.

Lemma Article_delete_integrity (db : Database) (k : Z) :
  referential_integrity db -> all_keyed (comments db) ->
  referential_integrity (snd (Article_delete db k)).
Proof.
  intros (Hcat & Hart & Hcom & Hrat & Hview) Hkeyed.
  unfold Article_delete, referential_integrity. simpl.
  split; [exact Hcat|]. split; [|split; [|split]].
  - intros a Ha. apply filter_In in Ha. now apply Hart.
  - intros c Hc.
    apply (proj1 (in_remaining Comment.parent (comments db) _ c)) in Hc.
    destruct Hc as [Hc Hno]. destruct (Hcom c Hc) as (Ha & Hu & Hp).
    split; [|split; [exact Hu|]].
    + apply in_pks_without. split; [exact Ha|]. intros Hk.
      apply (seed_is_reached (comments db) (fun c => Comment.article c =? k) c);
        auto.
      now apply Z.eqb_eq.
    + intros p Hparent. apply key_remains; [now apply Hp|].
      exact (parent_of_remaining Comment.parent (comments db) _ c p Hc
               (Hkeyed c Hc) Hno Hparent).
  - intros r Hr. apply filter_In in Hr. destruct Hr as [Hr Hk].
    destruct (Hrat r Hr) as [Ha Hu]. split; [|exact Hu].
    apply in_pks_without. split; [exact Ha|].
    now apply Z.eqb_neq, negb_true_iff.
  - intros v Hv. apply filter_In in Hv. destruct Hv as [Hv Hk].
    apply in_pks_without. split; [now apply Hview|].
    now apply Z.eqb_neq, negb_true_iff.
Qed.

Lemma Category_delete_integrity (db : Database) (k : Z) :
  referential_integrity db -> all_keyed (categories db) ->
  referential_integrity (snd (Category_delete db k)).
Proof.
  intros HRI Hkeyed. unfold Category_delete.
  destruct (existsb _ (articles db)) eqn:E; [exact HRI|].
  destruct HRI as (Hcat & Hart & Hrest).
  unfold referential_integrity. simpl.
  split; [|split; [|exact Hrest]].
  - intros c p Hc Hparent.
    apply (proj1 (in_remaining Category.parent (categories db) [k] c)) in Hc.
    destruct Hc as [Hc Hno].
    apply key_remains; [now apply (Hcat c p)|].
    exact (parent_of_remaining Category.parent (categories db) [k] c p Hc
             (Hkeyed c Hc) Hno Hparent).
  - intros a Ha. destruct (Hart a Ha) as (Hu & Hup & Hc).
    split; [exact Hu|]. split; [exact Hup|].
    apply key_remains; [exact Hc|]. intros Hreach.
    apply existsb_false with (x := a) in E; [|exact Ha].
    apply collect_reaches, is_in_In in Hreach. congruence.
Qed.

Lemma Comment_delete_integrity (db : Database) (k : Z) :
  referential_integrity db -> all_keyed (comments db) ->
  referential_integrity (snd (Comment_delete db k)).
Proof.
  intros (Hcat & Hart & Hcom & Hrest) Hkeyed.
  unfold Comment_delete, referential_integrity. simpl.
  split; [exact Hcat|]. split; [exact Hart|]. split; [|exact Hrest].
  intros c Hc.
  apply (proj1 (in_remaining Comment.parent (comments db) [k] c)) in Hc.
  destruct Hc as [Hc Hno]. destruct (Hcom c Hc) as (Ha & Hu & Hp).
  split; [exact Ha|]. split; [exact Hu|].
  intros p Hparent. apply key_remains; [now apply Hp|].
  exact (parent_of_remaining Comment.parent (comments db) [k] c p Hc
           (Hkeyed c Hc) Hno Hparent).
Qed.

Lemma in_remaining_users (db : Database) (u x : Z) :
  In x (filter (fun x => negb (x =? u)) (users db)) <-> In x (users db) /\ x <> u.
Proof.
  rewrite filter_In, negb_true_iff, Z.eqb_neq. reflexivity.
Qed.

Lemma User_delete_integrity (db : Database) (u : Z) :
  referential_integrity db -> all_keyed (comments db) ->
  referential_integrity (snd (User_delete db u)).
Proof.
  intros HRI Hkeyed. unfold User_delete.
  destruct (existsb _ (articles db) && negb _) eqn:E; [exact HRI|].
  destruct HRI as (Hcat & Hart & Hcom & Hrat & Hview).
  assert (Hkeys : pks (map (reassign_author u) (articles db)) = pks (articles db))
    by now apply pks_map_same.
  unfold referential_integrity. simpl. rewrite Hkeys.
  split; [exact Hcat|]. split; [|split; [|split; [|exact Hview]]].
  - intros a' Ha'. apply in_map_iff in Ha'. destruct Ha' as (a & <- & Ha).
    destruct (Hart a Ha) as (Hu & Hup & Hc). simpl.
    split; [|split; [|exact Hc]].
    + apply in_remaining_users.
      destruct (Article.author a =? u) eqn:Eu.
      * apply andb_false_iff in E. destruct E as [E|E].
        -- apply existsb_false with (x := a) in E; [congruence | exact Ha].
        -- apply negb_false_iff, is_in_In, in_remaining_users in E. exact E.
      * split; [exact Hu | now apply Z.eqb_neq].
    + intros w Hw. destruct (eqb_option_Z (Article.updater a) (Some u)) eqn:Eu;
        [discriminate|].
      apply in_remaining_users. split; [now apply Hup|].
      intros ->. rewrite Hw in Eu. simpl in Eu. rewrite Z.eqb_refl in Eu.
      discriminate.
  - intros c Hc.
    apply (proj1 (in_remaining Comment.parent (comments db) _ c)) in Hc.
    destruct Hc as [Hc Hno]. destruct (Hcom c Hc) as (Ha & Hu & Hp).
    split; [exact Ha|]. split.
    + apply in_remaining_users. split; [exact Hu|]. intros Hau.
      apply (seed_is_reached (comments db) (fun c => Comment.author c =? u) c);
        auto.
      now apply Z.eqb_eq.
    + intros p Hparent. apply key_remains; [now apply Hp|].
      exact (parent_of_remaining Comment.parent (comments db) _ c p Hc
               (Hkeyed c Hc) Hno Hparent).
  - intros r Hr. apply filter_In in Hr. destruct Hr as [Hr Hu].
    destruct (Hrat r Hr) as [Ha Hus]. split; [exact Ha|].
    intros w Hw. apply in_remaining_users. split; [now apply Hus|].
    intros ->. rewrite Hw in Hu. simpl in Hu. rewrite Z.eqb_refl in Hu.
    discriminate.
Qed.

(** X9.  The on_delete rules keep every reference resolved: in a state
    where every foreign key refers to a stored row and categories and
    comments have keys, deleting an article, a category, a comment or a
    user (completed or refused) leads to a state where again every
    foreign key refers to a stored row. *)
Theorem deletions_keep_referential_integrity (db : Database) (k : Z) :
  referential_integrity db ->
  all_keyed (categories db) -> all_keyed (comments db) ->
  referential_integrity (snd (Article_delete db k)) /\
  referential_integrity (snd (Category_delete db k)) /\
  referential_integrity (snd (Comment_delete db k)) /\
  referential_integrity (snd (User_delete db k)).
Proof.
  intros HRI Hcat Hcom.
  split; [now apply Article_delete_integrity|].
  split; [now apply Category_delete_integrity|].
  split; [now apply Comment_delete_integrity|].
  now apply User_delete_integrity.
Qed.

Lemma discussed_db_integrity : referential_integrity discussed_db.
Proof.
  unfold referential_integrity.
  split; [|split; [|split; [|split]]].
  - intros c p [<-|[]]. discriminate.
  - intros a [<-|[<-|[]]]; (split; [now left|]);
      (split; [discriminate | now left]).
  - intros c [<-|[<-|[<-|[]]]];
      (split; [simpl; tauto | split; [simpl; tauto|]]);
      intros p Hp; try discriminate.
    injection Hp as <-. now left.
  - intros r [].
  - intros v [].
Qed.

Lemma deletions_keep_referential_integrity_witness :
  referential_integrity (snd (Article_delete discussed_db 1)) /\
  referential_integrity (snd (Category_delete discussed_db 1)) /\
  referential_integrity (snd (Comment_delete discussed_db 1)) /\
  referential_integrity (snd (User_delete discussed_db 1)).
Proof.
  apply (deletions_keep_referential_integrity discussed_db 1).
  - exact discussed_db_integrity.
  - intros c [<-|[]]. discriminate.
  - intros c [<-|[<-|[<-|[]]]]; discriminate.
Defined.

(** ** Deleting a user *)

Lemma reassigned_author (u : Z) (a : Article.t) :
  u <> Article_author_default \/ Article.author a <> u ->
  Article.author (reassign_author u a) <> u /\
  Article.updater (reassign_author u a) <> Some u.
Proof.
  intros Hu. simpl. split.
  - destruct (Article.author a =? u) eqn:E.
    + apply Z.eqb_eq in E. destruct Hu as [Hu|Hu]; congruence.
    + now apply Z.eqb_neq.
  - destruct (eqb_option_Z (Article.updater a) (Some u)) eqn:E; [discriminate|].
    intros Heq. apply eqb_option_Z_true in Heq. congruence.
Qed.

(** X10.  Deleting a user never deletes an article: the articles keep
    their keys and all fields but [author] and [updater].  The deletion
    is refused, and nothing changes, when the user wrote an article and
    the default author (user 1) is the user being deleted or does not
    exist.  Otherwise it completes: the user is gone, the user's
    articles belong to the default author, no article names the user as
    author or updater, the ratings that remain are those of other and
    of anonymous users, and the comments that remain are those that are
    neither the user's nor below one of them. *)
Theorem User_delete_reassigns_and_cascades (db : Database) (u : Z) :
  pks (articles (snd (User_delete db u))) = pks (articles db) /\
  (forall a, In a (articles db) -> Article.author a = u ->
             u = Article_author_default \/ ~ In Article_author_default (users db) ->
             User_delete db u = (Raised (ForeignKeyViolation "author"), db)) /\
  ((forall a, In a (articles db) -> Article.author a <> u) \/
   (u <> Article_author_default /\ In Article_author_default (users db)) ->
   exists db',
     User_delete db u = (Done, db') /\
     (forall x, In x (users db') <-> In x (users db) /\ x <> u) /\
     categories db' = categories db /\ views db' = views db /\
     articles db' = map (reassign_author u) (articles db) /\
     (forall a, In a (articles db') ->
                Article.author a <> u /\ Article.updater a <> Some u) /\
     (forall a, In a (articles db) -> Article.author a = u ->
                Article.author (reassign_author u a) = Article_author_default) /\
     (forall r, In r (ratings db') <-> In r (ratings db) /\ Rating.user r <> Some u) /\
     (forall c, In c (comments db') <->
                In c (comments db) /\
                forall j, Comment.id c = Some j ->
                  ~ reaches Comment.parent (comments db)
                      (pks (filter (fun c => Comment.author c =? u) (comments db))) j)).
Proof.
  split; [|split].
  - unfold User_delete.
    destruct (existsb _ (articles db) && negb _); [reflexivity|]. simpl.
    now apply pks_map_same.
  - intros a Ha Hau Hdefault. unfold User_delete.
    replace (existsb _ (articles db)) with true.
    + replace (is_in Article_author_default _) with false; [reflexivity|].
      symmetry. destruct (is_in Article_author_default _) eqn:E; [|reflexivity].
      apply is_in_In, in_remaining_users in E. destruct E as [E1 E2].
      destruct Hdefault as [Hd|Hd]; [congruence | contradiction].
    + symmetry. apply existsb_exists. exists a. split; [exact Ha|].
      now apply Z.eqb_eq.
  - intros Hok. unfold User_delete.
    assert (E : existsb (fun a => Article.author a =? u) (articles db)
                && negb (is_in Article_author_default
                           (filter (fun x => negb (x =? u)) (users db))) = false).
    { apply andb_false_iff. destruct Hok as [Hnone|[Hne Hin]].
      - left. apply false_existsb. intros a Ha. now apply Z.eqb_neq, Hnone.
      - right. apply negb_false_iff, is_in_In, in_remaining_users. now split. }
    rewrite E. eexists. split; [reflexivity|]. simpl.
    split; [intros x; apply in_remaining_users|].
    do 3 (split; [reflexivity|]).
    split; [|split; [|split]].
    + intros a' Ha'. apply in_map_iff in Ha'. destruct Ha' as (a & <- & Ha).
      apply reassigned_author.
      destruct Hok as [Hnone|[Hne _]]; [right; now apply Hnone | now left].
    + intros a _ Hau. simpl. apply Z.eqb_eq in Hau. now rewrite Hau.
    + intros r. rewrite filter_In, negb_true_iff.
      split; intros [Hr Hu]; (split; [exact Hr|]).
      * intros Heq. apply eqb_option_Z_true in Heq. congruence.
      * destruct (eqb_option_Z _ _) eqn:Eu; [|reflexivity].
        apply eqb_option_Z_true in Eu. contradiction.
    + intros c. exact (in_remaining Comment.parent (comments db) _ c).
Qed.

(** ** Referential integrity under save *)

Section SaveKeepsKeys.
Context {R : Type} `{L : ModelLaws R}.
Variable violation : option Z -> R -> option DbError.

Lemma save_base_keeps_keys table self now o self' table' (k : Z) :
  save_base violation table self now = (o, self', table') ->
  In k (pks table) -> In k (pks table').
Proof.
  intros E Hin. destruct o as [|e].
  - completed_save E j; rewrite Ht.
    + rewrite pks_overwritten; [exact Hin|]. now rewrite Hs, pk_pre_save.
    + rewrite pks_app. apply in_or_app. now left.
    + rewrite pks_app. apply in_or_app. now left.
  - apply save_base_Raised in E. now rewrite E.
Qed.

Lemma save_base_rows table self now self' table' (b : R) :
  save_base violation table self now = (Done, self', table') ->
  In b table' -> In b table \/ b = self'.
Proof.
  intros E Hb. completed_save E j; rewrite Ht in Hb.
  - apply in_overwritten in Hb. destruct Hb as [Hb|[Hb _]]; [now right | now left].
  - apply in_app_or in Hb. destruct Hb as [Hb|[Hb|[]]]; [now left | now right].
  - apply in_app_or in Hb. destruct Hb as [Hb|[Hb|[]]]; [now left | now right].
Qed.

(** The row of a completed save passed the constraints, up to the key
    it was given. *)
Lemma save_base_checked table self now self' table' :
  save_base violation table self now = (Done, self', table') ->
  exists own row,
    violation own row = None /\ (self' = row \/ exists k, self' = with_pk k row).
Proof.
  intros E. completed_save E j.
  - exists (Some j), self'. split; [exact Hv | now left].
  - exists None, self'. split; [exact Hv | now left].
  - exists None, (pre_save true now self). split; [exact Hv|].
    right. now exists (next_pk table).
Qed.
End SaveKeepsKeys.

Lemma set_comments_same (db : Database) : set_comments (comments db) db = db.
Proof. now destruct db. Qed.

Lemma set_views_same (db : Database) : set_views (views db) db = db.
Proof. now destruct db. Qed.

Lemma Article_save_integrity unique_slugify db self now o self' db' :
  Article_save unique_slugify db self now = (o, self', db') ->
  referential_integrity db -> referential_integrity db'.
Proof.
  intros E HRI. pose proof HRI as (Hcat & Hart & Hcom & Hrat & Hview). unfold Article_save in E.
  destruct o as [|e].
  - pose proof (Article_saved_fk _ _ _ _ _ E) as (Hau & Hup & Hca).
    apply Article_super_save_inv in E. destruct E as [E Hdb].
    assert (Hkeys : forall k, In k (pks (articles db)) -> In k (pks (articles db')))
      by (intros k; exact (save_base_keeps_keys _ _ _ _ _ _ _ k E)).
    assert (Hu : users db' = users db) by (rewrite Hdb; reflexivity).
    assert (Hc : categories db' = categories db) by (rewrite Hdb; reflexivity).
    assert (Hco : comments db' = comments db) by (rewrite Hdb; reflexivity).
    assert (Hr : ratings db' = ratings db) by (rewrite Hdb; reflexivity).
    assert (Hvi : views db' = views db) by (rewrite Hdb; reflexivity).
    unfold referential_integrity. rewrite Hco, Hr, Hvi.
    split; [now rewrite Hc|]. split; [|split; [|split]].
    + intros a Ha. destruct (save_base_rows _ _ _ _ _ _ a E Ha) as [Hold| ->].
      * rewrite Hu, Hc. now apply Hart.
      * split; [now apply is_in_In|]. split; [|now apply exists_pk_true].
        intros u Hupd. rewrite Hupd in Hup. now apply is_in_In.
    + intros c Hc'. destruct (Hcom c Hc') as (Ha & Hau' & Hp).
      rewrite Hu. split; [now apply Hkeys | now split].
    + intros r Hr'. destruct (Hrat r Hr') as [Ha Hus].
      rewrite Hu. split; [now apply Hkeys | exact Hus].
    + intros v Hv. now apply Hkeys, Hview.
  - apply Article_super_save_inv in E. destruct E as [E Hdb].
    apply save_base_Raised in E. rewrite E, set_articles_same in Hdb.
    rewrite Hdb. exact HRI.
Qed.

Lemma Comment_save_integrity db self now o self' db' :
  Comment_save db self now = (o, self', db') ->
  referential_integrity db -> referential_integrity db'.
Proof.
  intros E HRI. pose proof HRI as (Hcat & Hart & Hcom & Hrat & Hview).
  assert (Hdb : db' = set_comments (comments db') db).
  { unfold Comment_save in E. destruct (save_base _ _ _ _) as [[o1 s1] t1].
    now inversion E. }
  apply Comment_save_inv in E.
  destruct o as [|e].
  - assert (Hkeys : forall k, In k (pks (comments db)) -> In k (pks (comments db')))
      by (intros k; exact (save_base_keeps_keys _ _ _ _ _ _ _ k E)).
    assert (Hfk : In (Comment.article self') (pks (articles db)) /\
                  In (Comment.author self') (users db) /\
                  forall p, Comment.parent self' = Some p -> In p (pks (comments db))).
    { destruct (save_base_checked _ _ _ _ _ _ E) as (own & row & Hv & Hrow).
      assert (Hsame : Comment.article self' = Comment.article row /\
                      Comment.author self' = Comment.author row /\
                      Comment.parent self' = Comment.parent row).
      { destruct Hrow as [->|[k ->]]; now repeat split. }
      destruct Hsame as (-> & -> & ->).
      unfold Comment_violation in Hv.
      destruct (exists_pk (Comment.article row) (articles db)) eqn:Ea;
        [|discriminate].
      destruct (user_exists db (Comment.author row)) eqn:Eu; [|discriminate].
      simpl in Hv.
      split; [now apply exists_pk_true|]. split; [now apply is_in_In|].
      intros p Hp. rewrite Hp in Hv.
      destruct (exists_pk p (comments db)) eqn:Ep; [|discriminate].
      now apply exists_pk_true. }
    rewrite Hdb. unfold referential_integrity. simpl.
    split; [exact Hcat|]. split; [exact Hart|]. split; [|now split].
    intros c Hc. destruct (save_base_rows _ _ _ _ _ _ c E Hc) as [Hold| ->].
    + destruct (Hcom c Hold) as (Ha & Hu & Hp).
      split; [exact Ha|]. split; [exact Hu|]. intros p Hpar. now apply Hkeys, Hp.
    + destruct Hfk as (Ha & Hu & Hp).
      split; [exact Ha|]. split; [exact Hu|]. intros p Hpar. now apply Hkeys, Hp.
  - apply save_base_Raised in E. rewrite E, set_comments_same in Hdb.
    rewrite Hdb. exact HRI.
Qed.

Lemma Rating_save_integrity db self now o self' db' :
  Rating_save db self now = (o, self', db') ->
  referential_integrity db -> referential_integrity db'.
Proof.
  intros E HRI. pose proof HRI as (Hcat & Hart & Hcom & Hrat & Hview).
  apply Rating_save_inv in E. destruct E as [E Hdb].
  destruct o as [|e].
  - assert (Hfk : In (Rating.article self') (pks (articles db)) /\
                  forall u, Rating.user self' = Some u -> In u (users db)).
    { destruct (save_base_checked _ _ _ _ _ _ E) as (own & row & Hv & Hrow).
      assert (Hsame : Rating.article self' = Rating.article row /\
                      Rating.user self' = Rating.user row).
      { destruct Hrow as [->|[k ->]]; now split. }
      destruct Hsame as (-> & ->).
      unfold Rating_violation in Hv.
      destruct (existsb _ (ratings db)); [discriminate|].
      destruct (exists_pk (Rating.article row) (articles db)) eqn:Ea;
        [|discriminate].
      destruct (optional_user_exists db (Rating.user row)) eqn:Eu; [|discriminate].
      split; [now apply exists_pk_true|].
      intros u Hu. rewrite Hu in Eu. now apply is_in_In. }
    rewrite Hdb. unfold referential_integrity. simpl.
    split; [exact Hcat|]. split; [exact Hart|]. split; [exact Hcom|].
    split; [|exact Hview].
    intros r Hr. destruct (save_base_rows _ _ _ _ _ _ r E Hr) as [Hold| ->].
    + now apply Hrat.
    + exact Hfk.
  - apply save_base_Raised in E. rewrite E, set_ratings_same in Hdb.
    rewrite Hdb. exact HRI.
Qed.

Lemma ViewCount_save_integrity db self now o self' db' :
  ViewCount_save db self now = (o, self', db') ->
  referential_integrity db -> referential_integrity db'.
Proof.
  intros E HRI. pose proof HRI as (Hcat & Hart & Hcom & Hrat & Hview).
  assert (Hsave : save_base (ViewCount_violation db) (views db) self now =
                  (o, self', views db') /\ db' = set_views (views db') db).
  { unfold ViewCount_save in E. destruct (save_base _ _ _ _) as [[o1 s1] t1].
    inversion E; subst. now split. }
  destruct Hsave as [Hsave Hdb].
  destruct o as [|e].
  - assert (Hfk : In (ViewCount.article self') (pks (articles db))).
    { destruct (save_base_checked _ _ _ _ _ _ Hsave) as (own & row & Hv & Hrow).
      assert (Hsame : ViewCount.article self' = ViewCount.article row)
        by (destruct Hrow as [->|[k ->]]; reflexivity).
      rewrite Hsame. unfold ViewCount_violation in Hv.
      destruct (exists_pk (ViewCount.article row) (articles db)) eqn:Ea;
        [|discriminate].
      now apply exists_pk_true. }
    rewrite Hdb. unfold referential_integrity. simpl.
    split; [exact Hcat|]. split; [exact Hart|]. split; [exact Hcom|].
    split; [exact Hrat|].
    intros v Hv. destruct (save_base_rows _ _ _ _ _ _ v Hsave Hv) as [Hold| ->].
    + now apply Hview.
    + exact Hfk.
  - apply save_base_Raised in Hsave. rewrite Hsave, set_views_same in Hdb.
    rewrite Hdb. exact HRI.
Qed.

(** X11.  Saving keeps every reference resolved: from a state where
    every foreign key refers to a stored row, a save of an article, a
    comment, a rating or a view, completed or refused, leads to a state
    where again every foreign key refers to a stored row. *)
Theorem saves_keep_referential_integrity
    (unique_slugify : Database -> Article.t -> string -> string)
    (db : Database) (now : Z) :
  referential_integrity db ->
  (forall self, referential_integrity (snd (Article_save unique_slugify db self now))) /\
  (forall self, referential_integrity (snd (Comment_save db self now))) /\
  (forall self, referential_integrity (snd (Rating_save db self now))) /\
  (forall self, referential_integrity (snd (ViewCount_save db self now))).
Proof.
  intros HRI. split; [|split; [|split]]; intros self.
  - destruct (Article_save unique_slugify db self now) as [[o s] d] eqn:E.
    exact (Article_save_integrity _ _ _ _ _ _ _ E HRI).
  - destruct (Comment_save db self now) as [[o s] d] eqn:E.
    exact (Comment_save_integrity _ _ _ _ _ _ E HRI).
  - destruct (Rating_save db self now) as [[o s] d] eqn:E.
    exact (Rating_save_integrity _ _ _ _ _ _ E HRI).
  - destruct (ViewCount_save db self now) as [[o s] d] eqn:E.
    exact (ViewCount_save_integrity _ _ _ _ _ _ E HRI).
Qed.

Lemma saves_keep_referential_integrity_witness :
  (forall self, referential_integrity
                  (snd (Article_save suffix_slugify discussed_db self 30))) /\
  (forall self, referential_integrity (snd (Comment_save discussed_db self 30))) /\
  (forall self, referential_integrity (snd (Rating_save discussed_db self 30))) /\
  (forall self, referential_integrity (snd (ViewCount_save discussed_db self 30))).
Proof.
  exact (saves_keep_referential_integrity suffix_slugify discussed_db 30
           discussed_db_integrity).
Defined.

(** ** Deleting a category after its articles *)

(** X12.  PROTECT only lasts as long as the articles do: when a single
    article refers to the category or to a category below it, deleting
    that article first makes the deletion of the category complete. *)
Theorem Category_delete_after_its_article (db : Database) (k j : Z) :
  (forall a, In a (articles db) ->
             reaches Category.parent (categories db) [k] (Article.category a) ->
             Article.id a = Some j) ->
  exists db',
    Category_delete (snd (Article_delete db j)) k = (Done, db') /\
    forall c, In c (categories db') <->
              In c (categories db) /\
              forall i, Category.id c = Some i ->
                        ~ reaches Category.parent (categories db) [k] i.
Proof.
  intros Honly. eexists. split.
  - apply Category_delete_done. simpl. intros a Ha Hreach.
    apply filter_In in Ha. destruct Ha as [Ha Hk].
    apply negb_true_iff in Hk.
    apply (proj1 (has_pk_false j a)) in Hk. apply Hk.
    now apply Honly.
  - intros c. simpl.
    exact (in_remaining Category.parent (categories db) [k] c).
Qed.

(** The article in AI blocks Tech; once it is deleted, Tech and AI can
    be deleted. *)
Lemma Category_delete_after_its_article_witness :
  Category_delete tech_ai_db 1 =
    (Raised (ProtectedError "Article.category"), tech_ai_db) /\
  exists db',
    Category_delete (snd (Article_delete tech_ai_db 1)) 1 = (Done, db') /\
    forall c, In c (categories db') <->
              In c (categories tech_ai_db) /\
              forall i, Category.id c = Some i ->
                        ~ reaches Category.parent (categories tech_ai_db) [1] i.
Proof.
  split; [reflexivity|].
  apply (Category_delete_after_its_article tech_ai_db 1 1).
  intros a [<-|[]] _. reflexivity.
Defined.

(** ** Changing a vote *)

Lemma overwritten_split {R : Type} `{L : ModelLaws R}
    (k : Z) (row old : R) (l1 l2 : list R) :
  NoDup (pks (l1 ++ old :: l2)) -> pk old = Some k ->
  map (fun r => if has_pk k r then row else r) (l1 ++ old :: l2) =
  l1 ++ row :: l2.
Proof.
  intros Hnd Hold.
  assert (Hpks : pks (l1 ++ old :: l2) = pks l1 ++ k :: pks l2).
  { rewrite pks_app. f_equal. unfold pks. simpl. now rewrite Hold. }
  rewrite Hpks in Hnd. apply NoDup_remove_2 in Hnd.
  rewrite map_app. simpl.
  rewrite (proj2 (has_pk_true k old) Hold).
  rewrite !overwritten_absent; [reflexivity | |];
    intros Hin; apply Hnd, in_or_app; [now right | now left].
Qed.

(** An object that carries prefetched ratings reports the same sum in
    every state. *)
Lemma get_sum_rating_cached (db later : Database) (self : ArticleInstance)
    (cached : list Rating.t) :
  prefetched_ratings self = Some cached ->
  get_sum_rating later self = get_sum_rating db self.
Proof.
  intros Hc. unfold get_sum_rating, Article_ratings_all. now rewrite Hc.
Qed.

(** X13.  A vote is changed by saving the stored rating again: for a
    stored rating with distinct keys and distinct (article, ip_address)
    pairs in the table, saving an instance with the same key, article
    and address and the value of a like or of a dislike completes as an
    UPDATE.  The table keeps its size and [time_create] of the instance
    is not touched.  Read through an object without prefetched ratings,
    [get_sum_rating] of the rated article moves by the difference of
    the new and the old value, that of every other article not at all;
    an object loaded by [ArticleManager.all] or [ArticleManager.detail]
    before the change reports what it reported before. *)
Theorem Rating_save_changes_vote
    (db : Database) (old self : Rating.t) (k now : Z) :
  NoDup (pks (ratings db)) -> NoDup (map Rating_key (ratings db)) ->
  In old (ratings db) -> Rating.id old = Some k -> Rating.id self = Some k ->
  Rating_key self = Rating_key old ->
  Rating.value self = 1 \/ Rating.value self = -1 ->
  exists_pk (Rating.article self) (articles db) = true ->
  optional_user_exists db (Rating.user self) = true ->
  exists db',
    Rating_save db self now = (Done, self, db') /\
    List.length (ratings db') = List.length (ratings db) /\
    (forall a j,
        Article.id a = Some j ->
        exists before,
          get_sum_rating db (unfetched a) = Result before /\
          get_sum_rating db' (unfetched a) =
          Result (before + (if Rating.article self =? j
                            then Rating.value self - Rating.value old
                            else 0))) /\
    (forall qs loaded,
        qs = ArticleManager_all \/ qs = ArticleManager_detail ->
        In loaded (fetch_instances db qs) ->
        get_sum_rating db' loaded = get_sum_rating db loaded).
Proof.
  intros Hpk Hkey Hold Hoid Hsid Hsame Hvalue Harticle Huser.
  assert (Hex : exists_pk k (ratings db) = true).
  { apply exists_pk_true, in_pks. now exists old. }
  assert (Hself : Rating.with_time_create (Rating.time_create self) self = self)
    by now destruct self.
  assert (Hv : Rating_violation db (Some k) self = None).
  { unfold Rating_violation. rewrite false_existsb.
    - now rewrite Harticle, Huser.
    - intros q Hq. destruct (is_own (Some k) q) eqn:Eo;
        [now rewrite andb_false_r|].
      rewrite andb_true_r.
      destruct (Rating.article q =? Rating.article self) eqn:Ea; [|reflexivity].
      destruct (String.eqb (Rating.ip_address q) (Rating.ip_address self)) eqn:Ei;
        [|reflexivity].
      exfalso. apply Z.eqb_eq in Ea. apply String.eqb_eq in Ei.
      assert (Hq_key : Rating_key q = Rating_key old)
        by (rewrite <- Hsame; unfold Rating_key; congruence).
      destruct (in_split _ _ Hold) as (l1 & l2 & Hl).
      rewrite Hl in Hkey, Hq. rewrite map_app in Hkey. simpl in Hkey.
      apply NoDup_remove_2 in Hkey. apply in_app_or in Hq.
      destruct Hq as [Hq|[Hq|Hq]].
      + apply Hkey, in_or_app. left. rewrite <- Hq_key. now apply in_map.
      + subst q. simpl in Eo. apply has_pk_false in Eo. contradiction.
      + apply Hkey, in_or_app. right. rewrite <- Hq_key. now apply in_map. }
  eexists. split; [|split; [|split]].
  - unfold Rating_save, save_base. simpl. rewrite Hsid, Hex. simpl.
    rewrite Hself, Hv. reflexivity.
  - simpl. apply length_map.
  - intros a j Hj. eexists.
    split; [exact (get_sum_rating_unfetched db a j Hj)|].
    rewrite (get_sum_rating_unfetched _ a j Hj). simpl.
    destruct (in_split _ _ Hold) as (l1 & l2 & Hl). rewrite Hl in *.
    rewrite (overwritten_split k self old l1 l2 Hpk Hoid).
    rewrite !filter_app, !map_app, !fold_right_add_app. f_equal.
    cbn [filter].
    assert (Hr : Rating.article old = Rating.article self)
      by (injection Hsame as Ha _; now rewrite Ha).
    rewrite Hr. destruct (Rating.article self =? j); simpl; lia.
  - intros qs loaded Hqs Hin.
    destruct (fetch_instances_prefetched db qs loaded
                (ArticleManager_prefetches_ratings qs Hqs) Hin) as [_ Hc].
    now apply (get_sum_rating_cached db _ loaded _ Hc).
Qed.

(** The like from 1.2.3.4 in [liked_once_db] turned into a dislike: the
    sum of article 1 goes from 1 to -1. *)
Lemma Rating_save_changes_vote_witness :
  exists db',
    Rating_save liked_once_db (Rating.with_id 1 (dislike_from "1.2.3.4")) 15 =
    (Done, Rating.with_id 1 (dislike_from "1.2.3.4"), db') /\
    List.length (ratings db') = List.length (ratings liked_once_db) /\
    get_sum_rating liked_once_db (unfetched hello_article) = Result 1 /\
    get_sum_rating db' (unfetched hello_article) = Result (-1).
Proof.
  destruct (Rating_save_changes_vote liked_once_db
              (Rating.with_id 1 (Rating.with_time_create 10 (like_from "1.2.3.4")))
              (Rating.with_id 1 (dislike_from "1.2.3.4")) 1 15)
    as (db' & E & Hlen & Hsum & _).
  - repeat constructor. intros [].
  - repeat constructor. intros [].
  - now left.
  - reflexivity.
  - reflexivity.
  - reflexivity.
  - right. reflexivity.
  - reflexivity.
  - reflexivity.
  - exists db'. split; [exact E|]. split; [exact Hlen|].
    destruct (Hsum hello_article 1 eq_refl) as (before & Hb & Ha).
    split; [reflexivity|].
    rewrite Ha. injection Hb as <-. reflexivity.
Defined.

(** ** Text representations *)

Lemma find_by_key {R : Type} `{L : ModelLaws R} (table : list R) (r : R) (k : Z) :
  NoDup (pks table) -> In r table -> pk r = Some k ->
  find (has_pk k) table = Some r.
Proof.
  intros Hnd Hr Hk.
  destruct (find (has_pk k) table) as [q|] eqn:E.
  - apply find_some in E. destruct E as [Hq Hqk].
    apply has_pk_true in Hqk. f_equal.
    now apply (pk_unique table q r k).
  - exfalso. apply (find_none _ _ E r) in Hr.
    apply has_pk_false in Hr. contradiction.
Qed.

(** X14.  [str()] of a rating never returns: the class body of Rating
    defines [__str__] twice, the later definition is the one in force,
    and it reads [self.author], an attribute no rating has, so every
    call ends in AttributeError.  The first definition, which is not in
    force, returns the title of the rated article when that article is
    stored. *)
Theorem Rating_str_raises_AttributeError (User_str : Z -> string) :
  (forall db self, Rating_str User_str db self = AttributeError "author") /\
  (forall db self a,
      NoDup (pks (articles db)) -> In a (articles db) ->
      Article.id a = Some (Rating.article self) ->
      Rating_str_article_title db self = Returned (Article.title a)).
Proof.
  split; [reflexivity|].
  intros db self a Hnd Ha Hid. unfold Rating_str_article_title, Rating_getattr.
  simpl. now rewrite (find_by_key (articles db) a _ Hnd Ha Hid).
Qed.

(** ** Keys stay distinct *)

#[export] Instance ViewCount_ModelLaws : ModelLaws ViewCount.t.
Proof. split; reflexivity. Qed.

Section KeyedDistinct.
Context {R : Type} `{L : ModelLaws R}.

Lemma filter_keyed_distinct (f : R -> bool) (table : list R) :
  keyed_distinct table -> keyed_distinct (filter f table).
Proof.
  intros [Hkeyed Hnd]. split.
  - intros r Hr. apply filter_In in Hr. now apply Hkeyed.
  - clear Hkeyed. induction table as [|x t IH]; simpl; [constructor|].
    assert (Ht : NoDup (pks t)).
    { unfold pks in Hnd. simpl in Hnd. now apply NoDup_app_remove_l in Hnd. }
    destruct (f x); [|now apply IH].
    unfold pks in *. simpl in *.
    destruct (pk x) as [k|]; simpl in *; [|now apply IH].
    inversion Hnd as [|? ? Hout _]; subst. constructor; [|now apply IH].
    intros Hin. apply Hout.
    apply (proj1 (in_pks k (filter f t))) in Hin. destruct Hin as (r & Hr & Hk).
    apply filter_In in Hr. apply (proj2 (in_pks k t)). exists r. now split.
Qed.

Lemma map_keyed_distinct (f : R -> R) (table : list R) :
  (forall r, pk (f r) = pk r) ->
  keyed_distinct table -> keyed_distinct (map f table).
Proof.
  intros Hf [Hkeyed Hnd]. split.
  - intros r' Hr'. apply in_map_iff in Hr'. destruct Hr' as (r & <- & Hr).
    rewrite Hf. now apply Hkeyed.
  - now rewrite pks_map_same.
Qed.

Lemma save_base_keyed_distinct (violation : option Z -> R -> option DbError)
    table self now o self' table' :
  save_base violation table self now = (o, self', table') ->
  keyed_distinct table -> keyed_distinct table'.
Proof.
  intros E [Hkeyed Hnd].
  split; [|exact (save_base_keys _ _ _ _ _ _ _ E Hnd)].
  destruct o as [|e].
  - intros r Hr. destruct (save_base_rows _ _ _ _ _ _ r E Hr) as [Hold| ->].
    + now apply Hkeyed.
    + destruct (save_base_stored _ _ _ _ _ _ E) as [_ [k Hk]]. congruence.
  - apply save_base_Raised in E. now rewrite E.
Qed.
End KeyedDistinct.

(** X15.  Keys stay well formed: from a state in which every row of
    every table has a key that no other row of its table has, a save of
    an article, a comment, a rating or a view and a deletion of an
    article, a category, a comment or a user, completed or refused,
    lead to a state of the same kind. *)
Theorem operations_keep_keys_well_formed
    (unique_slugify : Database -> Article.t -> string -> string)
    (db : Database) (k now : Z) :
  keys_well_formed db ->
  (forall self, keys_well_formed (snd (Article_save unique_slugify db self now))) /\
  (forall self, keys_well_formed (snd (Comment_save db self now))) /\
  (forall self, keys_well_formed (snd (Rating_save db self now))) /\
  (forall self, keys_well_formed (snd (ViewCount_save db self now))) /\
  keys_well_formed (snd (Article_delete db k)) /\
  keys_well_formed (snd (Category_delete db k)) /\
  keys_well_formed (snd (Comment_delete db k)) /\
  keys_well_formed (snd (User_delete db k)).
Proof.
  intros Hwf. pose proof Hwf as (Hcat & Hart & Hcom & Hrat & Hview).
  split; [|split; [|split; [|split; [|split; [|split; [|split]]]]]].
  - intros self. unfold Article_save, Article_super_save.
    destruct (save_base _ _ _ _) as [[o s] t] eqn:E. simpl.
    pose proof (save_base_keyed_distinct _ _ _ _ _ _ _ E Hart).
    unfold keys_well_formed; simpl; tauto.
  - intros self. unfold Comment_save.
    destruct (save_base _ _ _ _) as [[o s] t] eqn:E. simpl.
    pose proof (save_base_keyed_distinct _ _ _ _ _ _ _ E Hcom).
    unfold keys_well_formed; simpl; tauto.
  - intros self. unfold Rating_save.
    destruct (save_base _ _ _ _) as [[o s] t] eqn:E. simpl.
    pose proof (save_base_keyed_distinct _ _ _ _ _ _ _ E Hrat).
    unfold keys_well_formed; simpl; tauto.
  - intros self. unfold ViewCount_save.
    destruct (save_base _ _ _ _) as [[o s] t] eqn:E. simpl.
    pose proof (save_base_keyed_distinct _ _ _ _ _ _ _ E Hview).
    unfold keys_well_formed; simpl; tauto.
  - unfold Article_delete, keys_well_formed. simpl.
    split; [exact Hcat|].
    repeat (split; [now apply filter_keyed_distinct|]).
    now apply filter_keyed_distinct.
  - unfold Category_delete.
    destruct (existsb _ (articles db)); [exact Hwf|].
    unfold keys_well_formed. simpl.
    split; [now apply filter_keyed_distinct | tauto].
  - unfold Comment_delete, keys_well_formed. simpl.
    split; [exact Hcat|]. split; [exact Hart|].
    split; [now apply filter_keyed_distinct | tauto].
  - unfold User_delete.
    destruct (existsb _ (articles db) && negb _); [exact Hwf|].
    unfold keys_well_formed. simpl.
    split; [exact Hcat|]. split; [now apply map_keyed_distinct|].
    split; [now apply filter_keyed_distinct|].
    split; [now apply filter_keyed_distinct | exact Hview].
Qed.

Lemma discussed_db_keys : keys_well_formed discussed_db.
Proof.
  unfold keys_well_formed, keyed_distinct, all_keyed.
  repeat split; simpl;
    try (intros r Hr; repeat (destruct Hr as [<-|Hr]; [discriminate|]); destruct Hr);
    repeat constructor; simpl; intuition discriminate.
Qed.

Lemma operations_keep_keys_well_formed_witness :
  (forall self, keys_well_formed
                  (snd (Article_save suffix_slugify discussed_db self 30))) /\
  (forall self, keys_well_formed (snd (Comment_save discussed_db self 30))) /\
  (forall self, keys_well_formed (snd (Rating_save discussed_db self 30))) /\
  (forall self, keys_well_formed (snd (ViewCount_save discussed_db self 30))) /\
  keys_well_formed (snd (Article_delete discussed_db 1)) /\
  keys_well_formed (snd (Category_delete discussed_db 1)) /\
  keys_well_formed (snd (Comment_delete discussed_db 1)) /\
  keys_well_formed (snd (User_delete discussed_db 1)).
Proof.
  exact (operations_keep_keys_well_formed suffix_slugify discussed_db 1 30
           discussed_db_keys).
Defined.

(** ** Aggregates after a deletion *)

Lemma filter_filter_same {A : Type} (f g : A -> bool) (l : list A) :
  (forall x, f x = true -> g x = true) -> filter f (filter g l) = filter f l.
Proof.
  intros Himp. induction l as [|x l IH]; simpl; [reflexivity|].
  destruct (g x) eqn:Eg; simpl.
  - now rewrite IH.
  - destruct (f x) eqn:Ef; [|exact IH].
    rewrite (Himp x Ef) in Eg. discriminate.
Qed.

Lemma filter_filter_none {A : Type} (f g : A -> bool) (l : list A) :
  (forall x, g x = true -> f x = false) -> filter f (filter g l) = [].
Proof.
  intros Himp. induction l as [|x l IH]; simpl; [reflexivity|].
  destruct (g x) eqn:Eg; simpl; [|exact IH].
  now rewrite (Himp x Eg).
Qed.

(** What the deletion of article [k] leaves of the ratings of article
    [j]. *)
Lemma Article_delete_ratings_of (db : Database) (k j : Z) :
  ratings_of (snd (Article_delete db k)) j =
  if j =? k then [] else ratings_of db j.
Proof.
  unfold ratings_of. simpl. destruct (Z.eqb_spec j k) as [->|Hne].
  - rewrite filter_filter_none; [reflexivity|].
    intros r Hr. now apply negb_true_iff in Hr.
  - rewrite filter_filter_same; [reflexivity|].
    intros r Hr. apply Z.eqb_eq in Hr.
    apply negb_true_iff, Z.eqb_neq. congruence.
Qed.

(** X16.  After article [k] is deleted, an object with key [k] that
    carries no prefetched ratings reports the aggregate rating 0, and
    the article has no views; for every other article the ratings read
    through such an object, their sum and the views are what they were.
    An object that carries prefetched ratings reports after the deletion
    what it reported before, whichever article it stands for.  The
    object the deletion was called on has lost its key, and
    [get_sum_rating] on it raises ValueError; an object without key
    cannot be deleted. *)
Theorem Article_delete_resets_only_its_aggregates (db : Database) (k : Z) :
  (forall a, Article.id a = Some k ->
             get_sum_rating (snd (Article_delete db k)) (unfetched a) = Result 0) /\
  views_of (snd (Article_delete db k)) k = [] /\
  (forall a j, Article.id a = Some j -> j <> k ->
               Article_ratings_all (snd (Article_delete db k)) (unfetched a) =
               Article_ratings_all db (unfetched a) /\
               get_sum_rating (snd (Article_delete db k)) (unfetched a) =
               get_sum_rating db (unfetched a)) /\
  (forall j, j <> k -> views_of (snd (Article_delete db k)) j = views_of db j) /\
  (forall self cached,
      prefetched_ratings self = Some cached ->
      get_sum_rating (snd (Article_delete db k)) self = get_sum_rating db self) /\
  (forall self,
      Article.id (fields self) = Some k ->
      exists self',
        Article_instance_delete db self = Result (self', snd (Article_delete db k)) /\
        Article.id (fields self') = None /\
        prefetched_ratings self' = prefetched_ratings self /\
        get_sum_rating (snd (Article_delete db k)) self' = ValueError) /\
  (forall self,
      Article.id (fields self) = None ->
      Article_instance_delete db self = ValueError).
Proof.
  split; [|split; [|split; [|split; [|split; [|split]]]]].
  - intros a Ha. unfold get_sum_rating, Article_ratings_all, unfetched.
    cbn [fields prefetched_ratings]. rewrite Ha, Article_delete_ratings_of.
    now rewrite Z.eqb_refl.
  - unfold views_of. simpl. apply filter_filter_none.
    intros v Hv. now apply negb_true_iff in Hv.
  - intros a j Ha Hne.
    assert (Hsame : Article_ratings_all (snd (Article_delete db k)) (unfetched a) =
                    Article_ratings_all db (unfetched a)).
    { unfold Article_ratings_all, unfetched. cbn [fields prefetched_ratings].
      rewrite Ha, Article_delete_ratings_of.
      apply Z.eqb_neq in Hne. now rewrite Hne. }
    split; [exact Hsame|]. unfold get_sum_rating. now rewrite Hsame.
  - intros j Hj. unfold views_of. simpl. apply filter_filter_same.
    intros v Hv. apply Z.eqb_eq in Hv.
    apply negb_true_iff, Z.eqb_neq. congruence.
  - intros self cached Hc. now apply (get_sum_rating_cached db _ self cached).
  - intros self Hk. unfold Article_instance_delete. rewrite Hk.
    eexists. split; [reflexivity|]. split; [reflexivity|].
    split; [reflexivity|]. now apply get_sum_rating_without_key.
  - intros self Hk. unfold Article_instance_delete. now rewrite Hk.
Qed.

(** ** The default author *)

Lemma Article_violation_missing_author (db : Database) (own : option Z)
    (a : Article.t) :
  user_exists db (Article.author a) = false ->
  exists e, Article_violation db own a = Some e.
Proof.
  intros Hau. unfold Article_violation.
  destruct (existsb _ (articles db)); [eexists; reflexivity|].
  rewrite Hau. eexists. reflexivity.
Qed.

(** X17.  An article created without an author is written for user 1,
    the declared default.  When user 1 does not exist the creation is
    refused and stores nothing; when user 1 and the category exist and
    the slug asked for is not empty and not taken, the creation
    completes and the stored article has author 1, is not pinned and has
    no updater unless one was given. *)
Theorem Article_create_needs_default_author
    (unique_slugify : Database -> Article.t -> string -> string)
    (db : Database) (kw : Article_kwargs) (now : Z) :
  kw_author kw = None ->
  (~ In 1 (users db) ->
   exists e self', Article_create unique_slugify db kw now = (Raised e, self', db)) /\
  (forall slug,
      In 1 (users db) -> kw_slug kw = Some slug -> slug <> "" ->
      (forall b, In b (articles db) -> Article.slug b <> slug) ->
      optional_user_exists db (kw_updater kw) = true ->
      exists_pk (kw_category kw) (categories db) = true ->
      exists self' db',
        Article_create unique_slugify db kw now = (Done, self', db') /\
        Article.author self' = 1 /\ Article.slug self' = slug /\
        Article.fixed self' = default false (kw_fixed kw) /\
        Article.updater self' = kw_updater kw /\
        Article.time_create self' = now /\ Article.time_update self' = now).
Proof.
  intros Hkw. split.
  - intros Hno. unfold Article_create, Article_save.
    set (s := if String.eqb _ "" then _ else Article_init kw).
    assert (Hau : Article.author s = 1).
    { unfold s. destruct (String.eqb _ ""); simpl; now rewrite Hkw. }
    destruct (Article_super_save_refused db s now (fun _ => True))
      as (e & self' & E & _).
    + intros own row _ Hf _.
      destruct (Article_violation_missing_author db own row) as [e He].
      * destruct Hf as (_ & _ & _ & _ & _ & _ & <- & _). rewrite Hau.
        unfold user_exists. destruct (is_in 1 (users db)) eqn:E; [|reflexivity].
        apply is_in_In in E. contradiction.
      * now exists e.
    + now exists e, self'.
  - intros slug Hone Hslug Hne Hfree Hupd Hcat.
    unfold Article_create, Article_save.
    assert (Hs : Article.slug (Article_init kw) = slug)
      by (simpl; now rewrite Hslug).
    rewrite Hs. apply String.eqb_neq in Hne. rewrite Hne.
    unfold Article_super_save, save_base. simpl.
    rewrite (Article_violation_None db
               (Article.with_times now now (Article_init kw))).
    + eexists. eexists. split; [reflexivity|]. simpl.
      rewrite Hkw, Hslug. now repeat split.
    + intros b Hb. simpl. rewrite Hslug. now apply Hfree.
    + simpl. rewrite Hkw. now apply is_in_In.
    + exact Hupd.
    + exact Hcat.
Qed.

(** [news_kwargs] names no author: in [hello_db], where user 1 exists,
    the article is stored for user 1. *)
Lemma Article_create_needs_default_author_witness :
  exists self' db',
    Article_create suffix_slugify hello_db news_kwargs 7 = (Done, self', db') /\
    Article.author self' = 1 /\ Article.slug self' = "news" /\
    Article.fixed self' = default false (kw_fixed news_kwargs) /\
    Article.updater self' = kw_updater news_kwargs /\
    Article.time_create self' = 7 /\ Article.time_update self' = 7.
Proof.
  apply (proj2 (Article_create_needs_default_author suffix_slugify hello_db
                  news_kwargs 7 eq_refl) "news").
  - now left.
  - reflexivity.
  - discriminate.
  - intros b [<-|[]]. discriminate.
  - reflexivity.
  - reflexivity.
Defined.
